(** * Boolean query trees of the full-text search subsystem

    A shallow embedding of [src/storage/invertedindex/search/query_node.cpp]:
    the per-node rewrite rules of the query optimizer
    ([OptimizeInPlaceInner]), the iterator factory ([CreateSearch]) and the
    diagnostic printer ([PrintTree]), with the properties the specification
    states about them. *)

From Stdlib Require Import List String Bool Arith NArith Lia QArith.
From Stdlib Require Import DecimalString Permutation.
Import ListNotations.

Close Scope Q_scope.
Open Scope string_scope.
Open Scope list_scope.

Set Implicit Arguments.

(* ================================================================== *)
(** * Outcomes of a call *)

(** [UnrecoverableError] throws: the call stops and the message travels to
    the caller.  [OutOfRange] stands for the places where the source reads
    [front()] or [back()] of a vector without a size check: on an empty
    vector C++ leaves the call undefined, and the model stops there. *)
Inductive Result (A : Type) : Type :=
| Ok (a : A)
| UnrecoverableError (msg : string)
| OutOfRange.

Arguments Ok {A} a.
Arguments UnrecoverableError {A} msg.
Arguments OutOfRange {A}.

Definition bind {A B : Type} (r : Result A) (k : A -> Result B) : Result B :=
  match r with
  | Ok a => k a
  | UnrecoverableError msg => UnrecoverableError msg
  | OutOfRange => OutOfRange
  end.

Notation "x <- r ;; k" := (bind r (fun x => k))
  (at level 61, r at next level, right associativity).

Definition is_ok {A : Type} (r : Result A) : bool :=
  match r with Ok _ => true | _ => false end.

(** A range-based [for] whose body may throw. *)
Fixpoint for_each {A S : Type} (body : S -> A -> Result S) (l : list A) (s : S)
  : Result S :=
  match l with
  | [] => Ok s
  | a :: l' => s' <- body s a ;; for_each body l' s'
  end.

(** The messages of the source, under the names the specification gives to
    the error kinds. *)
Definition NotArity : string :=
  "Invalid query statement: NotQueryNode node should have at least 1 child".
Definition AndArity : string :=
  "Invalid query statement: AndQueryNode node should have at least 2 children".
Definition OrArity : string :=
  "Invalid query statement: OrQueryNode node should have at least 2 children".
Definition UnexpectedKind : string :=
  "OptimizeInPlaceInner: Unexpected case!".
Definition UnsupportedDisjunction : string :=
  "Invalid query statement: OrQueryNode node should not have both or list and not list".
Definition AndNotInInput : string :=
  "OptimizeInPlaceInner: Unexpected case! AndNotQueryNode should not exist in parser output".
Definition InvalidNormalization : string :=
  "NOT query node should be optimized into AND_NOT query node".

(* ================================================================== *)
(** * Query nodes *)

(** The enumeration behind [GetType].  [INVALID] is a sentinel: no node
    class of the model carries it. *)
Inductive QueryNodeType : Set :=
| INVALID | TERM | AND | AND_NOT | OR | NOT
| WAND | PHRASE | PREFIX_TERM | SUFFIX_TERM | SUBSTRING_TERM.

(** The four subclasses of [MultiQueryNode]. *)
Inductive MultiKind : Set := AndKind | AndNotKind | OrKind | NotKind.

(** Modelled from the spec: the header that declares the node classes is
    missing; section 3 lists, next to [TERM], five leaf kinds that carry a
    payload and that the rewriter does not look into. *)
Inductive OpaqueKind : Set :=
| WandLeaf | PhraseLeaf | PrefixLeaf | SuffixLeaf | SubstringLeaf.

(** The weight is a [float] in the source.  Nothing modelled here computes
    with it: a weight is copied along with its node, or set to [1.0] in a
    node made by the optimizer, so a rational stands for it. *)
Definition Weight : Set := Q.
Definition fresh_weight : Weight := 1%Q.

Unset Elimination Schemes.
Inductive QueryNode : Type :=
| TermQueryNode (weight_ : Weight) (term_ column_ : string)
| OpaqueQueryNode (kind_ : OpaqueKind) (weight_ : Weight) (payload_ : string)
| MultiQueryNode (kind_ : MultiKind) (weight_ : Weight)
                 (children_ : list QueryNode).
Set Elimination Schemes.

Arguments TermQueryNode weight_%_Q term_%_string column_%_string.
Arguments OpaqueQueryNode kind_ weight_%_Q payload_%_string.
Arguments MultiQueryNode kind_ weight_%_Q children_%_list.

Abbreviation AndQueryNode := (MultiQueryNode AndKind).
Abbreviation AndNotQueryNode := (MultiQueryNode AndNotKind).
Abbreviation OrQueryNode := (MultiQueryNode OrKind).
Abbreviation NotQueryNode := (MultiQueryNode NotKind).

(** Induction over a tree, with the hypothesis for every child. *)
Section QueryNode_ind.
Variable P : QueryNode -> Prop.
Hypothesis P_term : forall w t c, P (TermQueryNode w t c).
Hypothesis P_opaque : forall k w p, P (OpaqueQueryNode k w p).
Hypothesis P_multi : forall k w cs, Forall P cs -> P (MultiQueryNode k w cs).

Fixpoint QueryNode_ind (n : QueryNode) : P n :=
  match n with
  | TermQueryNode w t c => P_term w t c
  | OpaqueQueryNode k w p => P_opaque k w p
  | MultiQueryNode k w cs =>
      P_multi k w
        ((fix all (l : list QueryNode) : Forall P l :=
            match l with
            | [] => Forall_nil P
            | c :: l' => Forall_cons c (QueryNode_ind c) (all l')
            end) cs)
  end.
End QueryNode_ind.

Definition MultiType (k : MultiKind) : QueryNodeType :=
  match k with
  | AndKind => AND | AndNotKind => AND_NOT | OrKind => OR | NotKind => NOT
  end.

Definition OpaqueType (k : OpaqueKind) : QueryNodeType :=
  match k with
  | WandLeaf => WAND | PhraseLeaf => PHRASE | PrefixLeaf => PREFIX_TERM
  | SuffixLeaf => SUFFIX_TERM | SubstringLeaf => SUBSTRING_TERM
  end.

Definition GetType (n : QueryNode) : QueryNodeType :=
  match n with
  | TermQueryNode _ _ _ => TERM
  | OpaqueQueryNode k _ _ => OpaqueType k
  | MultiQueryNode k _ _ => MultiType k
  end.

(** The children that a [static_cast] of the child to its composite class
    reads. *)
Definition children_of (n : QueryNode) : list QueryNode :=
  match n with
  | MultiQueryNode _ _ cs => cs
  | _ => []
  end.

Definition is_none {A : Type} (o : option A) : bool :=
  match o with None => true | Some _ => false end.

Definition is_empty {A : Type} (l : list A) : bool :=
  match l with [] => true | _ => false end.

(* ================================================================== *)
(** * The rewrite rules *)

(** ** NOT *)

Definition not_step (new_not_list : list QueryNode) (child : QueryNode)
  : Result (list QueryNode) :=
  match GetType child with
  | TERM | AND | AND_NOT => Ok (new_not_list ++ [child])
  | OR => Ok (new_not_list ++ children_of child)
  | _ => UnrecoverableError UnexpectedKind
  end.

Definition NotOptimizeInPlaceInner (children_ : list QueryNode)
  : Result QueryNode :=
  if is_empty children_ then UnrecoverableError NotArity
  else
    new_not_list <- for_each not_step children_ [] ;;
    Ok (NotQueryNode fresh_weight new_not_list).

(** ** AND *)

Definition and_step (lists : list QueryNode * list QueryNode)
  (child : QueryNode) : Result (list QueryNode * list QueryNode) :=
  let (and_list, not_list) := lists in
  match GetType child with
  | AND => Ok (and_list ++ children_of child, not_list)
  | TERM | OR => Ok (and_list ++ [child], not_list)
  | NOT => Ok (and_list, not_list ++ children_of child)
  | AND_NOT =>
      match children_of child with
      | [] => OutOfRange
      | first_child :: others =>
          let and_list' :=
            match GetType first_child with
            | AND => and_list ++ children_of first_child
            | _ => and_list ++ [first_child]
            end in
          Ok (and_list', not_list ++ others)
      end
  | _ => UnrecoverableError UnexpectedKind
  end.

Definition and_build (and_list not_list : list QueryNode) : QueryNode :=
  if is_empty and_list then NotQueryNode fresh_weight not_list
  else if is_empty not_list then AndQueryNode fresh_weight and_list
  else
    let first :=
      match and_list with
      | [only] => only
      | _ => AndQueryNode fresh_weight and_list
      end in
    AndNotQueryNode fresh_weight (first :: not_list).

Definition AndOptimizeInPlaceInner (children_ : list QueryNode)
  : Result QueryNode :=
  if (List.length children_ <? 2)%nat then UnrecoverableError AndArity
  else
    lists <- for_each and_step children_ ([], []) ;;
    Ok (and_build (fst lists) (snd lists)).

(** ** OR *)

Definition or_step (lists : list QueryNode * list QueryNode)
  (child : QueryNode) : Result (list QueryNode * list QueryNode) :=
  let (or_list, not_list) := lists in
  match GetType child with
  | OR => Ok (or_list ++ children_of child, not_list)
  | TERM | AND | AND_NOT => Ok (or_list ++ [child], not_list)
  | NOT => Ok (or_list, not_list ++ [child])
  | _ => UnrecoverableError UnexpectedKind
  end.

(** One element of the [AND] that the rule builds below its [NOT]. *)
Definition or_collapse (not_child : QueryNode) : QueryNode :=
  match children_of not_child with
  | [only] => only
  | grandchildren => OrQueryNode fresh_weight grandchildren
  end.

Definition OrOptimizeInPlaceInner (children_ : list QueryNode)
  : Result QueryNode :=
  if (List.length children_ <? 2)%nat then UnrecoverableError OrArity
  else
    lists <- for_each or_step children_ ([], []) ;;
    let (or_list, not_list) := lists in
    if is_empty or_list then
      Ok (NotQueryNode fresh_weight
            [AndQueryNode fresh_weight (map or_collapse not_list)])
    else if is_empty not_list then Ok (OrQueryNode fresh_weight or_list)
    else UnrecoverableError UnsupportedDisjunction.

(** ** AND_NOT *)

Definition AndNotOptimizeInPlaceInner (children_ : list QueryNode)
  : Result QueryNode :=
  UnrecoverableError AndNotInInput.

(** The virtual call. *)
Definition OptimizeInPlaceInner (k : MultiKind) (children_ : list QueryNode)
  : Result QueryNode :=
  match k with
  | NotKind => NotOptimizeInPlaceInner children_
  | AndKind => AndOptimizeInPlaceInner children_
  | OrKind => OrOptimizeInPlaceInner children_
  | AndNotKind => AndNotOptimizeInPlaceInner children_
  end.

(** Modelled from the spec: the traversal that drives the rules is declared
    in the missing header.  Section 4.2: bottom-up, each node first
    normalizes all its children, then applies its own rewrite rule; a leaf
    is returned as it is. *)
Fixpoint normalize (node : QueryNode) : Result QueryNode :=
  match node with
  | MultiQueryNode k _ children_ =>
      children' <-
        (fix each (l : list QueryNode) : Result (list QueryNode) :=
           match l with
           | [] => Ok []
           | c :: l' =>
               c' <- normalize c ;; r <- each l' ;; Ok (c' :: r)
           end) children_ ;;
      OptimizeInPlaceInner k children'
  | leaf => Ok leaf
  end.

Fixpoint normalize_each (l : list QueryNode) : Result (list QueryNode) :=
  match l with
  | [] => Ok []
  | c :: l' => c' <- normalize c ;; r <- normalize_each l' ;; Ok (c' :: r)
  end.


(* ================================================================== *)
(** * Properties of trees *)

(** ** Boolean reading of a query

    [AND] and [OR] are the conjunction and the disjunction of the children,
    [AND_NOT (a; b1 ... bn)] is [a] and none of the [b]s.  A [NOT] holds
    when no child holds: the negation of its child for the one-child [NOT]
    of an input, and the list of subtrahends the optimizer keeps in a
    [NOT] until a parent [AND] takes them. *)
Section Eval.
Variable holds : string -> string -> bool.
Variable opaque_holds : OpaqueKind -> string -> bool.

Fixpoint eval (n : QueryNode) : bool :=
  match n with
  | TermQueryNode _ term column => holds column term
  | OpaqueQueryNode k _ payload => opaque_holds k payload
  | MultiQueryNode k _ cs =>
      match k with
      | AndKind => forallb eval cs
      | OrKind => existsb eval cs
      | NotKind => negb (existsb eval cs)
      | AndNotKind =>
          match cs with
          | [] => false
          | a :: bs => eval a && negb (existsb eval bs)
          end
      end
  end.
End Eval.

(** ** Shapes *)

Definition is_opaque (ty : QueryNodeType) : bool :=
  match ty with
  | WAND | PHRASE | PREFIX_TERM | SUFFIX_TERM | SUBSTRING_TERM => true
  | _ => false
  end.

Definition type_eqb (a b : QueryNodeType) : bool :=
  match a, b with
  | INVALID, INVALID | TERM, TERM | AND, AND | AND_NOT, AND_NOT | OR, OR
  | NOT, NOT | WAND, WAND | PHRASE, PHRASE | PREFIX_TERM, PREFIX_TERM
  | SUFFIX_TERM, SUFFIX_TERM | SUBSTRING_TERM, SUBSTRING_TERM => true
  | _, _ => false
  end.

(** Some node of the tree has type [ty]. *)
Fixpoint contains (ty : QueryNodeType) (n : QueryNode) : bool :=
  type_eqb (GetType n) ty ||
  match n with
  | MultiQueryNode _ _ cs => existsb (contains ty) cs
  | _ => false
  end.

(** Some node of type [parent] has a direct child of type [child]. *)
Fixpoint nests (parent child : QueryNodeType) (n : QueryNode) : bool :=
  match n with
  | MultiQueryNode k _ cs =>
      (type_eqb (MultiType k) parent
       && existsb (fun c => type_eqb (GetType c) child) cs)
      || existsb (nests parent child) cs
  | _ => false
  end.

Fixpoint contains_opaque (n : QueryNode) : bool :=
  match n with
  | TermQueryNode _ _ _ => false
  | OpaqueQueryNode _ _ _ => true
  | MultiQueryNode _ _ cs => existsb contains_opaque cs
  end.

(** The same tree with a [TERM] leaf in the place of every opaque leaf. *)
Fixpoint as_terms (n : QueryNode) : QueryNode :=
  match n with
  | OpaqueQueryNode _ w payload => TermQueryNode w payload ""
  | MultiQueryNode k w cs => MultiQueryNode k w (map as_terms cs)
  | leaf => leaf
  end.

Definition min_arity (k : MultiKind) : nat :=
  match k with NotKind => 1 | _ => 2 end.

Definition is_fresh (w : Weight) : bool :=
  (Qnum w =? 1)%Z && (Qden w =? 1)%positive.

(** ** The canonical form as the specification tabulates it (section 3) *)

Definition table_permits (parent : MultiKind) (child : QueryNodeType) : bool :=
  is_opaque child ||
  match parent, child with
  | AndKind, TERM | AndKind, OR => true
  | OrKind, TERM | OrKind, AND | OrKind, AND_NOT => true
  | NotKind, TERM | NotKind, AND | NotKind, AND_NOT => true
  | AndNotKind, TERM | AndNotKind, AND | AndNotKind, OR => true
  | _, _ => false
  end.

Fixpoint satisfies_table (n : QueryNode) : bool :=
  match n with
  | MultiQueryNode k _ cs =>
      (min_arity k <=? List.length cs)%nat
      && forallb (fun c => table_permits k (GetType c) && satisfies_table c) cs
  | _ => true
  end.

(** The consequences (a) to (d) that the specification draws from it. *)
Definition table_consequences (n : QueryNode) : bool :=
  negb (nests AND AND n) && negb (nests OR OR n) && negb (nests NOT NOT n)
  && negb (nests AND_NOT AND_NOT n) && negb (nests NOT AND_NOT n).

(** ** The normal form that the rules produce

    [negated] tells whether the node stands below a negation: inside a
    [NOT], or inside a child of an [AND_NOT] other than the first.  No row
    permits a [NOT] or an opaque leaf as a child, so either one can only be
    the root. *)
Definition rules_permit (negated : bool) (parent : MultiKind) (first : bool)
  (child : QueryNodeType) : bool :=
  match parent, child with
  | AndKind, TERM | AndKind, OR => true
  | AndKind, AND | AndKind, AND_NOT => negated
  | OrKind, TERM | OrKind, AND | OrKind, AND_NOT => true
  | NotKind, TERM | NotKind, AND | NotKind, AND_NOT => true
  | AndNotKind, TERM | AndNotKind, AND => true
  | AndNotKind, OR => first
  | AndNotKind, AND_NOT => negb first
  | _, _ => false
  end.

Definition child_negated (negated : bool) (parent : MultiKind) (first : bool)
  : bool :=
  match parent with
  | AndKind | OrKind => negated
  | NotKind => true
  | AndNotKind => negb first
  end.

Fixpoint normal_form (negated : bool) (n : QueryNode) : bool :=
  match n with
  | MultiQueryNode k w cs =>
      is_fresh w && (min_arity k <=? List.length cs)%nat &&
      match cs with
      | [] => true
      | c :: others =>
          rules_permit negated k true (GetType c)
          && normal_form (child_negated negated k true) c
          && forallb (fun c' =>
                        rules_permit negated k false (GetType c')
                        && normal_form (child_negated negated k false) c')
               others
      end
  | _ => true
  end.

(** One child of a node in normal form: its kind is permitted and it is in
    normal form itself. *)
Definition item (negated : bool) (k : MultiKind) (first : bool)
  (c : QueryNode) : bool :=
  rules_permit negated k first (GetType c)
  && normal_form (child_negated negated k first) c.

(** The element kinds of the lists the rules build. *)
Abbreviation and_item := (item false AndKind false).
Abbreviation or_item := (item false OrKind false).
Abbreviation sub_item := (item false NotKind false).

(** A tree that normalization returns as it is: no [AND_NOT], no [AND]
    directly inside an [AND]. *)
Definition settled (n : QueryNode) : bool :=
  negb (contains AND_NOT n) && negb (nests AND AND n).

(** ** The partition of the AND rule, in the words of the specification *)

(** What one child gives to [and_list] and to [not_list]. *)
Definition and_share (child : QueryNode)
  : Result (list QueryNode * list QueryNode) :=
  match child with
  | TermQueryNode _ _ _ => Ok ([child], [])
  | AndQueryNode _ cs => Ok (cs, [])
  | OrQueryNode _ _ => Ok ([child], [])
  | NotQueryNode _ cs => Ok ([], cs)
  | AndNotQueryNode _ (AndQueryNode _ firsts :: others) => Ok (firsts, others)
  | AndNotQueryNode _ (first :: others) => Ok ([first], others)
  | AndNotQueryNode _ [] => OutOfRange
  | OpaqueQueryNode _ _ _ => UnrecoverableError UnexpectedKind
  end.

Fixpoint and_partition (children_ : list QueryNode)
  : Result (list QueryNode * list QueryNode) :=
  match children_ with
  | [] => Ok ([], [])
  | child :: rest =>
      share <- and_share child ;;
      lists <- and_partition rest ;;
      Ok (fst share ++ fst lists, snd share ++ snd lists)
  end.

Definition and_collapsed (and_list : list QueryNode) : QueryNode :=
  match and_list with
  | [only] => only
  | _ => AndQueryNode fresh_weight and_list
  end.

Definition is_not (c : QueryNode) : bool := type_eqb (GetType c) NOT.


(* ================================================================== *)
(** * The iterator factory *)

Section Factory.

(** The table catalog, the index reader and its readers are used through
    their calls only. *)
Variables ColumnIndexReader PostingIterator : Type.
Definition ColumnID : Set := N.
Variable GetColumnIdByName : string -> ColumnID.
Variable GetColumnIndexReader : ColumnID -> option ColumnIndexReader.
Variable Lookup : ColumnIndexReader -> string -> option PostingIterator.

Unset Elimination Schemes.
Inductive DocIterator : Type :=
| TermDocIterator (posting_iterator : PostingIterator) (column_id : ColumnID)
| AndIterator (iterators : list DocIterator)
| AndNotIterator (iterators : list DocIterator)
| OrIterator (iterators : list DocIterator).
Set Elimination Schemes.

(** Modelled from the spec: the scorer is not among the sources; section 5
    has the factory append doc-iterator pointers to it.  Its state is the
    list of the registrations made so far, oldest first. *)
Definition Scorer : Type := list (DocIterator * ColumnID).

(** A computation of the factory: it may register iterators and may throw;
    what was registered before a throw stays registered. *)
Definition Build (A : Type) : Type := Scorer -> Result A * Scorer.

Definition ret {A : Type} (a : A) : Build A := fun scorer => (Ok a, scorer).

Definition throw {A : Type} (msg : string) : Build A :=
  fun scorer => (UnrecoverableError msg, scorer).

Definition out_of_range {A : Type} : Build A :=
  fun scorer => (OutOfRange, scorer).

Definition and_then {A B : Type} (m : Build A) (k : A -> Build B) : Build B :=
  fun scorer =>
    match m scorer with
    | (Ok a, scorer') => k a scorer'
    | (UnrecoverableError msg, scorer') => (UnrecoverableError msg, scorer')
    | (OutOfRange, scorer') => (OutOfRange, scorer')
    end.

Definition AddDocIterator (search : DocIterator) (column_id : ColumnID)
  : Build unit :=
  fun scorer => (Ok tt, scorer ++ [(search, column_id)]).

(** Modelled from the spec: the factories of the opaque leaves are out of
    scope (section 9); whatever they do is a parameter here. *)
Variable OpaqueCreateSearch :
  OpaqueKind -> Weight -> string -> Build (option DocIterator).

Definition keep (sub_doc_iters : list DocIterator) (iter : option DocIterator)
  : list DocIterator :=
  match iter with
  | Some it => sub_doc_iters ++ [it]
  | None => sub_doc_iters
  end.

Definition TermCreateSearch (term_ column_ : string)
  : Build (option DocIterator) :=
  let column_id := GetColumnIdByName column_ in
  match GetColumnIndexReader column_id with
  | None => ret None
  | Some column_index_reader =>
      match Lookup column_index_reader term_ with
      | None => ret None
      | Some posting_iterator =>
          let search := TermDocIterator posting_iterator column_id in
          and_then (AddDocIterator search column_id)
                   (fun _ => ret (Some search))
      end
  end.

Fixpoint CreateSearch (n : QueryNode) : Build (option DocIterator) :=
  match n with
  | TermQueryNode _ term_ column_ => TermCreateSearch term_ column_
  | OpaqueQueryNode k w payload => OpaqueCreateSearch k w payload
  | MultiQueryNode k _ children_ =>
      let collect :=
        fix collect (l : list QueryNode) (sub_doc_iters : list DocIterator)
          {struct l} : Build (list DocIterator) :=
          match l with
          | [] => ret sub_doc_iters
          | child :: l' =>
              and_then (CreateSearch child)
                       (fun iter => collect l' (keep sub_doc_iters iter))
          end in
      match k with
      | AndKind =>
          and_then (collect children_ [])
            (fun sub_doc_iters =>
               match sub_doc_iters with
               | [] => ret None
               | [only] => ret (Some only)
               | _ => ret (Some (AndIterator sub_doc_iters))
               end)
      | AndNotKind =>
          match children_ with
          | [] => out_of_range
          | first :: others =>
              and_then (CreateSearch first)
                (fun first_iter =>
                   match first_iter with
                   | None => ret None
                   | Some it =>
                       and_then (collect others [it])
                         (fun sub_doc_iters =>
                            match sub_doc_iters with
                            | [only] => ret (Some only)
                            | _ => ret (Some (AndNotIterator sub_doc_iters))
                            end)
                   end)
          end
      | OrKind =>
          and_then (collect children_ [])
            (fun sub_doc_iters =>
               match sub_doc_iters with
               | [] => ret None
               | [only] => ret (Some only)
               | _ => ret (Some (OrIterator sub_doc_iters))
               end)
      | NotKind => throw InvalidNormalization
      end
  end.

(** The loop over the children, by its own name. *)
Fixpoint collect (l : list QueryNode) (sub_doc_iters : list DocIterator)
  : Build (list DocIterator) :=
  match l with
  | [] => ret sub_doc_iters
  | child :: l' =>
      and_then (CreateSearch child)
               (fun iter => collect l' (keep sub_doc_iters iter))
  end.

(** ** What the factory is said to do, leaf by leaf *)

(** The registration a [TERM] leaf makes when both its lookups succeed. *)
Definition registration (term_ column_ : string)
  : option (DocIterator * ColumnID) :=
  let column_id := GetColumnIdByName column_ in
  match GetColumnIndexReader column_id with
  | None => None
  | Some column_index_reader =>
      match Lookup column_index_reader term_ with
      | None => None
      | Some posting_iterator =>
          Some (TermDocIterator posting_iterator column_id, column_id)
      end
  end.

Definition survives (leaf : string * string) : bool :=
  match registration (fst leaf) (snd leaf) with
  | Some _ => true
  | None => false
  end.

(** The registrations of the surviving leaves of a list, in its order. *)
Fixpoint registrations (leaves : list (string * string)) : Scorer :=
  match leaves with
  | [] => []
  | leaf :: rest =>
      match registration (fst leaf) (snd leaf) with
      | Some r => r :: registrations rest
      | None => registrations rest
      end
  end.

(** All [TERM] leaves, left to right, as (term, column). *)
Fixpoint term_leaves (n : QueryNode) : list (string * string) :=
  match n with
  | TermQueryNode _ term_ column_ => [(term_, column_)]
  | OpaqueQueryNode _ _ _ => []
  | MultiQueryNode _ _ cs => flat_map term_leaves cs
  end.

(** The [TERM] leaves outside every subtrahend. *)
Fixpoint positive_leaves (n : QueryNode) : list (string * string) :=
  match n with
  | TermQueryNode _ term_ column_ => [(term_, column_)]
  | OpaqueQueryNode _ _ _ => []
  | MultiQueryNode k _ cs =>
      match k with
      | AndNotKind =>
          match cs with
          | [] => []
          | first :: _ => positive_leaves first
          end
      | _ => flat_map positive_leaves cs
      end
  end.

(** The [TERM] leaves that the factory reaches: the subtrahends of an
    [AND_NOT] only when a positive leaf of its first child survives. *)
Fixpoint reached_leaves (n : QueryNode) : list (string * string) :=
  match n with
  | TermQueryNode _ term_ column_ => [(term_, column_)]
  | OpaqueQueryNode _ _ _ => []
  | MultiQueryNode k _ cs =>
      match k with
      | AndNotKind =>
          match cs with
          | [] => []
          | first :: others =>
              reached_leaves first
              ++ (if existsb survives (positive_leaves first)
                  then flat_map reached_leaves others
                  else [])
          end
      | _ => flat_map reached_leaves cs
      end
  end.

(** A tree the factory runs on without a fatal error: no [NOT], no opaque
    leaf, every [AND_NOT] with its first child. *)
Fixpoint executable (n : QueryNode) : bool :=
  match n with
  | TermQueryNode _ _ _ => true
  | OpaqueQueryNode _ _ _ => false
  | MultiQueryNode k _ cs =>
      match k with
      | NotKind => false
      | AndNotKind => negb (is_empty cs) && forallb executable cs
      | _ => forallb executable cs
      end
  end.

Definition absent (r : Result (option DocIterator) * Scorer) : bool :=
  match fst r with
  | Ok None => true
  | _ => false
  end.

End Factory.

(** ** Sample nodes, for examples *)
Definition term (t : string) : QueryNode := TermQueryNode 1 t "body".
Definition title (t : string) : QueryNode := TermQueryNode 1 t "title".
Definition phrase : QueryNode := OpaqueQueryNode PhraseLeaf 1 "p q".

(** ** A small index, for examples

    Two columns, [body] and [title]; only [body] has an index reader, and
    it knows the terms [c] and [d]. *)
Definition sample_column (name : string) : ColumnID :=
  if String.eqb name "body" then 1%N else 2%N.
Definition sample_reader (id : ColumnID) : option unit :=
  if N.eqb id 1 then Some tt else None.
Definition sample_lookup (reader : unit) (term : string) : option nat :=
  if String.eqb term "c" then Some 30
  else if String.eqb term "d" then Some 40 else None.
Definition sample_opaque (k : OpaqueKind) (w : Weight) (payload : string)
  : Build nat (option (DocIterator nat)) :=
  ret None.
Definition sample_create : QueryNode -> Build nat (option (DocIterator nat)) :=
  CreateSearch sample_column sample_reader sample_lookup sample_opaque.

(* ================================================================== *)
(** * The diagnostic printer *)

Open Scope string_scope.

Definition QueryNodeTypeToString (type : QueryNodeType) : string :=
  match type with
  | INVALID => "INVALID"
  | TERM => "TERM"
  | AND => "AND"
  | AND_NOT => "AND_NOT"
  | OR => "OR"
  | NOT => "NOT"
  | WAND => "WAND"
  | PHRASE => "PHRASE"
  | PREFIX_TERM => "PREFIX_TERM"
  | SUFFIX_TERM => "SUFFIX_TERM"
  | SUBSTRING_TERM => "SUBSTRING_TERM"
  end.

Definition final_rune : string := "└──".
Definition inner_rune : string := "├──".
Definition rune (is_final : bool) : string :=
  if is_final then final_rune else inner_rune.
Definition indent (is_final : bool) : string :=
  if is_final then "    " else "│   ".
Definition newline : string := String (Ascii.ascii_of_nat 10) "".

(** Element access of a vector: [v[i]] and [v.back()], the latter the
    element before [end()].  Out of the range C++ defines neither. *)
Definition at_index {A : Type} (v : list A) (i : nat) : Result A :=
  match nth_error v i with
  | Some a => Ok a
  | None => OutOfRange
  end.

Definition back {A : Type} (v : list A) : Result A :=
  at_index v (List.length v - 1).

Section Printer.

(** How the stream writes a [float]. *)
Variable show_weight : Weight -> string.
(** Modelled from the spec: the printers of the opaque leaves are not among
    the sources; each writes its own lines. *)
Variable OpaquePrintTree : OpaqueKind -> Weight -> string -> string -> bool -> string.

Definition show_size (n : nat) : string :=
  NilZero.string_of_uint (Nat.to_uint n).

Definition TermPrintTree (weight_ : Weight) (term_ column_ : string)
  (prefix : string) (is_final : bool) : string :=
  prefix ++ rune is_final ++ QueryNodeTypeToString TERM
  ++ " (weight: " ++ show_weight weight_ ++ ")"
  ++ " (column: " ++ column_ ++ ")"
  ++ " (term: " ++ term_ ++ ")"
  ++ newline.

Definition MultiHeader (k : MultiKind) (weight_ : Weight)
  (children_ : list QueryNode) (prefix : string) (is_final : bool) : string :=
  prefix ++ rune is_final ++ QueryNodeTypeToString (MultiType k)
  ++ " (weight: " ++ show_weight weight_ ++ ")"
  ++ " (children count: " ++ show_size (List.length children_) ++ ")"
  ++ newline.

(** The loop [for (u32 i = 0; i + 1 < children_.size(); ++i)] from [i] on,
    with at most [rounds] rounds.  The counter does not wrap for a vector
    of fewer than 2^32 children. *)
Fixpoint print_inner (print : QueryNode -> bool -> Result string)
  (children_ : list QueryNode) (rounds i : nat) : Result string :=
  match rounds with
  | O => Ok ""
  | S rounds' =>
      if (i + 1 <? List.length children_)%nat then
        child <- at_index children_ i ;;
        line <- print child false ;;
        rest <- print_inner print children_ rounds' (i + 1) ;;
        Ok (line ++ rest)
      else Ok ""
  end.

(** The body of [MultiQueryNode::PrintTree] below the header line, the
    calls on the children being [print]. *)
Definition MultiPrintChildren (print : QueryNode -> bool -> Result string)
  (children_ : list QueryNode) : Result string :=
  inner <- print_inner print children_ (List.length children_) 0 ;;
  last_child <- back children_ ;;
  line <- print last_child true ;;
  Ok (inner ++ line).

(** The lines of a list of children, one call after the other. *)
Fixpoint print_lines (print : QueryNode -> Result string)
  (l : list QueryNode) : Result string :=
  match l with
  | [] => Ok ""
  | child :: l' =>
      line <- print child ;; rest <- print_lines print l' ;; Ok (line ++ rest)
  end.

Fixpoint PrintTree (n : QueryNode) (prefix : string) (is_final : bool)
  : Result string :=
  match n with
  | TermQueryNode w term_ column_ =>
      Ok (TermPrintTree w term_ column_ prefix is_final)
  | OpaqueQueryNode k w payload =>
      Ok (OpaquePrintTree k w payload prefix is_final)
  | MultiQueryNode k w children_ =>
      let next_prefix := prefix ++ indent is_final in
      body <-
        (fix each (l : list QueryNode) : Result string :=
           match l with
           | [] => OutOfRange
           | [last_child] => PrintTree last_child next_prefix true
           | child :: l' =>
               line <- PrintTree child next_prefix false ;;
               rest <- each l' ;;
               Ok (line ++ rest)
           end) children_ ;;
      Ok (MultiHeader k w children_ prefix is_final ++ body)
  end.

(** The recursion over the children, by its own name. *)
Section PrintChildren.
Variable print : QueryNode -> bool -> Result string.

Fixpoint print_children (l : list QueryNode) : Result string :=
  match l with
  | [] => OutOfRange
  | [last_child] => print last_child true
  | child :: l' =>
      line <- print child false ;;
      rest <- print_children l' ;;
      Ok (line ++ rest)
  end.
End PrintChildren.

(** Every composite node of the tree has a child. *)
Fixpoint all_nonempty (n : QueryNode) : bool :=
  match n with
  | MultiQueryNode _ _ cs => negb (is_empty cs) && forallb all_nonempty cs
  | _ => true
  end.

End Printer.

Open Scope list_scope.

(** A rendering, with the weights written as fractions. *)
Definition sample_weight (w : Weight) : string :=
  (NilZero.string_of_int (Z.to_int (Qnum w)) ++ "/"
   ++ NilZero.string_of_uint (Pos.to_uint (Qden w)))%string.

(* ================================================================== *)
(** * Which queries the rules accept *)

(** What a rule sees of a normalized child: an opaque leaf, a [NOT], or
    anything else. *)
Inductive Shape : Set := PositiveShape | NegativeShape | OpaqueShape.

Definition shape_of (n : QueryNode) : Shape :=
  if is_opaque (GetType n) then OpaqueShape
  else if type_eqb (GetType n) NOT then NegativeShape
  else PositiveShape.

Definition is_positive (s : Shape) : bool :=
  match s with PositiveShape => true | _ => false end.
Definition is_negative (s : Shape) : bool :=
  match s with NegativeShape => true | _ => false end.
Definition is_atom (s : Shape) : bool :=
  match s with OpaqueShape => true | _ => false end.

(** The shape of the result of each rule, from the shapes of the children;
    [None] when the rule throws. *)
Definition combine (k : MultiKind) (shapes : list Shape) : option Shape :=
  match k with
  | NotKind =>
      if negb (is_empty shapes) && forallb is_positive shapes
      then Some NegativeShape else None
  | AndKind =>
      if (2 <=? List.length shapes)%nat
         && forallb (fun s => negb (is_atom s)) shapes
      then Some (if forallb is_negative shapes
                 then NegativeShape else PositiveShape)
      else None
  | OrKind =>
      if (2 <=? List.length shapes)%nat
         && forallb (fun s => negb (is_atom s)) shapes
      then if forallb is_negative shapes then Some NegativeShape
           else if forallb is_positive shapes then Some PositiveShape
           else None
      else None
  | AndNotKind => None
  end.

Fixpoint all_some {A : Type} (l : list (option A)) : option (list A) :=
  match l with
  | [] => Some []
  | None :: _ => None
  | Some a :: l' =>
      match all_some l' with
      | Some r => Some (a :: r)
      | None => None
      end
  end.

(** The shape of the normalized query, computed on the input; [None] for a
    query that is rejected. *)
Fixpoint polarity (n : QueryNode) : option Shape :=
  match n with
  | TermQueryNode _ _ _ => Some PositiveShape
  | OpaqueQueryNode _ _ _ => Some OpaqueShape
  | MultiQueryNode k _ cs =>
      match all_some (map polarity cs) with
      | Some shapes => combine k shapes
      | None => None
      end
  end.

(** The arities that every rule checks first, and no [AND_NOT]. *)
Fixpoint input_arities (n : QueryNode) : bool :=
  match n with
  | MultiQueryNode k _ cs =>
      match k with
      | AndNotKind => false
      | _ => (min_arity k <=? List.length cs)%nat
      end
      && forallb input_arities cs
  | _ => true
  end.

(** The leaves of a tree, left to right, each with its weight and
    content. *)
Fixpoint leaf_nodes (n : QueryNode) : list QueryNode :=
  match n with
  | MultiQueryNode _ _ cs => flat_map leaf_nodes cs
  | leaf => [leaf]
  end.

(** A query without negation: [TERM], [AND] and [OR] only, every composite
    node with at least 2 children. *)
Fixpoint negation_free (n : QueryNode) : bool :=
  match n with
  | TermQueryNode _ _ _ => true
  | OpaqueQueryNode _ _ _ => false
  | MultiQueryNode k _ cs =>
      match k with
      | AndKind | OrKind =>
          (2 <=? List.length cs)%nat && forallb negation_free cs
      | _ => false
      end
  end.


(** What a node of kind [k] takes from a child without negation: the
    children of a child of its own kind, any other child itself. *)
Definition absorb (k : MultiKind) (c : QueryNode) : list QueryNode :=
  if type_eqb (GetType c) (MultiType k) then children_of c else [c].


(* ================================================================== *)
(** * Iterator trees *)

Section Iterators.
Variable PostingIterator : Type.

(** The term iterators of an iterator tree, left to right, each with the
    column id it was made with: what the scorer is told about them. *)
Fixpoint term_iterators (it : DocIterator PostingIterator)
  : Scorer PostingIterator :=
  match it with
  | TermDocIterator p column_id => [(TermDocIterator p column_id, column_id)]
  | AndIterator l => flat_map term_iterators l
  | AndNotIterator l => flat_map term_iterators l
  | OrIterator l => flat_map term_iterators l
  end.

(** Every composite iterator of the tree combines at least 2 iterators. *)
Fixpoint well_built (it : DocIterator PostingIterator) : bool :=
  match it with
  | TermDocIterator _ _ => true
  | AndIterator l => (2 <=? List.length l)%nat && forallb well_built l
  | AndNotIterator l => (2 <=? List.length l)%nat && forallb well_built l
  | OrIterator l => (2 <=? List.length l)%nat && forallb well_built l
  end.

Definition registered (r : option (DocIterator PostingIterator))
  : Scorer PostingIterator :=
  match r with
  | Some it => term_iterators it
  | None => []
  end.

(** What one call leaves behind: on a return, the scorer has gained the
    term iterators of the returned tree, which is well built; on a throw,
    the scorer has only gained. *)
Definition outcome_ok (s : Scorer PostingIterator)
  (res : Result (option (DocIterator PostingIterator))
         * Scorer PostingIterator) : Prop :=
  match fst res with
  | Ok r =>
      snd res = s ++ registered r
      /\ match r with Some it => well_built it = true | None => True end
  | _ => exists added, snd res = s ++ added
  end.

Definition collected_ok (acc : list (DocIterator PostingIterator))
  (s : Scorer PostingIterator)
  (res : Result (list (DocIterator PostingIterator))
         * Scorer PostingIterator) : Prop :=
  match fst res with
  | Ok acc' =>
      exists added,
        acc' = acc ++ added
        /\ snd res = s ++ flat_map term_iterators added
        /\ forallb well_built added = true
  | _ => exists added, snd res = s ++ added
  end.

End Iterators.


(* ================================================================== *)
(** * Lines of a rendering *)

Open Scope string_scope.

(** The number of line ends in a string. *)
Fixpoint newlines (s : string) : nat :=
  match s with
  | EmptyString => 0
  | String c s' =>
      (if Ascii.eqb c (Ascii.ascii_of_nat 10) then 1 else 0) + newlines s'
  end.

Open Scope list_scope.

Fixpoint node_count (n : QueryNode) : nat :=
  match n with
  | MultiQueryNode _ _ cs =>
      S (fold_right (fun c total => node_count c + total) 0 cs)
  | _ => 1
  end.

(** No term and no column name of the tree holds a line end. *)
Fixpoint one_line_leaves (n : QueryNode) : bool :=
  match n with
  | TermQueryNode _ term_ column_ =>
      (newlines term_ =? 0)%nat && (newlines column_ =? 0)%nat
  | OpaqueQueryNode _ _ _ => true
  | MultiQueryNode _ _ cs => forallb one_line_leaves cs
  end.

(* ================================================================== *)
(** * Identifiers of logical operators

    [src/planner/logical_operator.h]: [get_new_id] is
    [return ++node_id_count_;] on a static [uint64_t]. *)

Definition uint64_modulus : Z := Z.pow 2 64.

(** The counter after the call, which is also the value returned. *)
Definition get_new_id (node_id_count_ : Z) : Z :=
  Z.modulo (node_id_count_ + 1) uint64_modulus.

(** The ids that [calls] calls in a row return, oldest first. *)
Fixpoint new_ids (calls : nat) (node_id_count_ : Z) : list Z :=
  match calls with
  | O => []
  | S calls' =>
      get_new_id node_id_count_ :: new_ids calls' (get_new_id node_id_count_)
  end.

(* ================================================================== *)
(** * Properties of the rewrite rules *)

(** ** Outcomes and loops *)

Lemma bind_ok {A B : Type} (r : Result A) (k : A -> Result B) (b : B) :
  bind r k = Ok b -> exists a, r = Ok a /\ k a = Ok b.
Proof.
  destruct r as [a| |]; simpl; intros H; try discriminate.
  exists a. now split.
Qed.

Ltac bind_inv H :=
  let a := fresh "a" in
  let Ha := fresh "Ha" in
  apply bind_ok in H; destruct H as (a & Ha & H).

Lemma normalize_multi k w cs :
  normalize (MultiQueryNode k w cs) =
  (children' <- normalize_each cs ;; OptimizeInPlaceInner k children').
Proof. reflexivity. Qed.

Lemma normalize_each_Forall2 cs cs' :
  normalize_each cs = Ok cs' ->
  Forall2 (fun c c' => normalize c = Ok c') cs cs'.
Proof.
  revert cs'. induction cs as [|c cs IH]; simpl; intros cs' H.
  - injection H as <-. constructor.
  - bind_inv H. bind_inv H. injection H as <-.
    constructor; [assumption | now apply IH].
Qed.

(** The loop of the AND rule adds to its two lists what the partition
    gives, child by child. *)
Lemma and_step_share al nl child :
  and_step (al, nl) child =
  (share <- and_share child ;; Ok (al ++ fst share, nl ++ snd share)).
Proof.
  destruct child as [w t c|k w p|k w cs]; simpl.
  - now rewrite app_nil_r.
  - now destruct k.
  - destruct k; simpl; try now rewrite ?app_nil_r.
    destruct cs as [|first others]; [reflexivity|].
    destruct first as [w1 t1 c1|k1 w1 p1|k1 w1 cs1]; simpl;
      try reflexivity; now destruct k1.
Qed.

Lemma and_loop_partition cs : forall al nl,
  for_each and_step cs (al, nl) =
  (lists <- and_partition cs ;; Ok (al ++ fst lists, nl ++ snd lists)).
Proof.
  induction cs as [|c cs IH]; intros al nl; cbn [for_each and_partition].
  - simpl. now rewrite !app_nil_r.
  - rewrite and_step_share.
    destruct (and_share c) as [[a n]| |]; simpl; try reflexivity.
    rewrite IH.
    destruct (and_partition cs) as [[a' n']| |]; simpl; try reflexivity.
    now rewrite !app_assoc.
Qed.

Lemma and_loop_start cs :
  for_each and_step cs ([], []) = and_partition cs.
Proof.
  rewrite and_loop_partition.
  destruct (and_partition cs) as [[a n]| |]; reflexivity.
Qed.

(** ** The rules keep the meaning *)

Section Meaning.
Variable holds : string -> string -> bool.
Variable opaque_holds : OpaqueKind -> string -> bool.
Let ev := eval holds opaque_holds.

Lemma ev_or_children c :
  GetType c = OR -> existsb ev (children_of c) = ev c.
Proof.
  destruct c as [w t col|k w p|k w cs]; simpl; try discriminate.
  - now destruct k.
  - now destruct k.
Qed.

Lemma not_loop_meaning cs : forall acc l,
  for_each not_step cs acc = Ok l ->
  existsb ev l = existsb ev acc || existsb ev cs.
Proof.
  induction cs as [|c cs IH]; simpl; intros acc l H.
  - injection H as <-. now rewrite orb_false_r.
  - bind_inv H. apply IH in H. rewrite H. clear H IH.
    unfold not_step in Ha.
    destruct (GetType c) eqn:Ty; try discriminate;
      injection Ha as <-; rewrite existsb_app, <- orb_assoc; simpl;
      rewrite ?orb_false_r; try reflexivity.
    now rewrite ev_or_children.
Qed.

Lemma and_share_meaning c a n :
  and_share c = Ok (a, n) ->
  forallb ev a && negb (existsb ev n) = ev c.
Proof.
  destruct c as [w t col|k w p|k w cs]; simpl.
  - intros H. injection H as <- <-. simpl. now rewrite !andb_true_r.
  - discriminate.
  - destruct k.
    + intros H. injection H as <- <-. simpl. now rewrite andb_true_r.
    + destruct cs as [|first others]; [discriminate|].
      destruct first as [w1 t1 c1|k1 w1 p1|k1 w1 cs1]; try destruct k1;
        intros H; injection H as <- <-; simpl;
        rewrite ?andb_true_r; reflexivity.
    + intros H. injection H as <- <-. simpl. now rewrite !andb_true_r.
    + intros H. injection H as <- <-. reflexivity.
Qed.

Lemma and_partition_meaning cs : forall al nl,
  and_partition cs = Ok (al, nl) ->
  forallb ev al && negb (existsb ev nl) = forallb ev cs.
Proof.
  induction cs as [|c cs IH]; simpl; intros al nl H.
  - injection H as <- <-. reflexivity.
  - bind_inv H. bind_inv H. injection H as <- <-.
    destruct a as [a n], a0 as [a' n']. simpl.
    apply and_share_meaning in Ha. apply IH in Ha0.
    rewrite <- Ha, <- Ha0, forallb_app, existsb_app.
    destruct (forallb ev a), (forallb ev a'), (existsb ev n),
      (existsb ev n'); reflexivity.
Qed.

Lemma and_build_meaning al nl :
  ev (and_build al nl) = forallb ev al && negb (existsb ev nl).
Proof.
  unfold and_build.
  destruct al as [|a al]; [reflexivity|].
  destruct nl as [|n nl]; simpl is_empty; cbv iota.
  - simpl. now rewrite andb_true_r.
  - destruct al as [|a' al]; simpl; now rewrite ?andb_true_r.
Qed.

Lemma or_loop_meaning cs : forall ol nl ol' nl',
  for_each or_step cs (ol, nl) = Ok (ol', nl') ->
  Forall (fun c => GetType c = NOT) nl ->
  Forall (fun c => GetType c = NOT) nl'
  /\ existsb ev ol' || existsb ev nl'
     = existsb ev ol || existsb ev nl || existsb ev cs.
Proof.
  induction cs as [|c cs IH]; simpl; intros ol nl ol' nl' H Hn.
  - injection H as <- <-. split; [assumption|]. now rewrite orb_false_r.
  - bind_inv H. destruct a as [ol1 nl1].
    unfold or_step in Ha.
    destruct (GetType c) eqn:Ty; try discriminate;
      injection Ha as <- <-; apply IH in H;
      try assumption;
      try (apply Forall_app; split; [assumption|];
           constructor; [assumption|constructor]);
      destruct H as [Hn' ->]; (split; [assumption|]);
      rewrite ?existsb_app; simpl; rewrite ?orb_false_r.
    + destruct (existsb ev ol), (ev c), (existsb ev nl), (existsb ev cs);
        reflexivity.
    + destruct (existsb ev ol), (ev c), (existsb ev nl), (existsb ev cs);
        reflexivity.
    + destruct (existsb ev ol), (ev c), (existsb ev nl), (existsb ev cs);
        reflexivity.
    + rewrite ev_or_children by assumption.
      destruct (existsb ev ol), (ev c), (existsb ev nl), (existsb ev cs);
        reflexivity.
    + destruct (existsb ev ol), (ev c), (existsb ev nl), (existsb ev cs);
        reflexivity.
Qed.

Lemma or_collapse_meaning c :
  GetType c = NOT -> ev (or_collapse c) = negb (ev c).
Proof.
  destruct c as [w t col|k w p|k w cs]; simpl; try discriminate.
  - now destruct k.
  - destruct k; try discriminate. intros _.
    unfold or_collapse. simpl.
    destruct cs as [|g [|g' gs]]; simpl; rewrite ?orb_false_r;
      now rewrite ?negb_involutive.
Qed.

Lemma or_collapse_all nl :
  Forall (fun c => GetType c = NOT) nl ->
  forallb ev (map or_collapse nl) = negb (existsb ev nl).
Proof.
  induction 1 as [|c nl Hc _ IH]; simpl; [reflexivity|].
  rewrite IH, or_collapse_meaning by assumption.
  now rewrite negb_orb.
Qed.

Lemma inner_meaning k w cs t' :
  OptimizeInPlaceInner k cs = Ok t' ->
  ev t' = ev (MultiQueryNode k w cs).
Proof.
  destruct k; simpl.
  - (* AND *)
    unfold AndOptimizeInPlaceInner.
    destruct (List.length cs <? 2)%nat; [discriminate|].
    rewrite and_loop_start. intros H. bind_inv H. injection H as <-.
    destruct a as [al nl]. simpl.
    rewrite and_build_meaning. now apply and_partition_meaning.
  - discriminate.
  - (* OR *)
    unfold OrOptimizeInPlaceInner.
    destruct (List.length cs <? 2)%nat; [discriminate|].
    intros H. bind_inv H. destruct a as [ol nl].
    apply or_loop_meaning in Ha; [|constructor].
    destruct Ha as [Hn He]. simpl in He.
    destruct ol as [|o ol]; simpl in H.
    + injection H as <-. simpl in *.
      rewrite or_collapse_all by assumption.
      now rewrite orb_false_r, negb_involutive.
    + destruct nl as [|n nl]; [|discriminate].
      injection H as <-. simpl in *. now rewrite orb_false_r in He.
  - (* NOT *)
    unfold NotOptimizeInPlaceInner.
    destruct (is_empty cs); [discriminate|].
    intros H. bind_inv H. injection H as <-.
    apply not_loop_meaning in Ha. simpl in *. now rewrite Ha.
Qed.

Lemma each_meaning cs cs' :
  Forall2 (fun c c' => ev c' = ev c) cs cs' ->
  forall k w, ev (MultiQueryNode k w cs') = ev (MultiQueryNode k w cs).
Proof.
  intros H.
  assert (Hall : forallb ev cs' = forallb ev cs
                 /\ existsb ev cs' = existsb ev cs).
  { induction H as [|c c' cs cs' Hc _ [IHa IHe]]; simpl; [now split|].
    now rewrite Hc, IHa, IHe. }
  destruct Hall as [Ha He].
  intros k w. destruct k; simpl; fold ev; try congruence.
  destruct H as [|c c' cs cs' Hc H]; [reflexivity|].
  simpl in He. fold ev.
  assert (Hr : existsb ev cs' = existsb ev cs).
  { clear - H. induction H as [|d d' ds ds' Hd _ IH]; simpl; [reflexivity|].
    now rewrite Hd, IH. }
  now rewrite Hc, Hr.
Qed.

Lemma normalize_meaning t : forall t',
  normalize t = Ok t' -> ev t' = ev t.
Proof.
  induction t as [w term col|k w p|k w cs IH] using QueryNode_ind;
    intros t' H.
  - simpl in H. now injection H as <-.
  - simpl in H. now injection H as <-.
  - rewrite normalize_multi in H. bind_inv H.
    rewrite (inner_meaning k w _ H).
    apply each_meaning.
    apply normalize_each_Forall2 in Ha.
    clear H. induction Ha as [|c c' cs cs' Hc _ IHa]; [constructor|].
    inversion IH; subst. constructor; [now apply H1 | now apply IHa].
Qed.

End Meaning.

(** C2.  For every tree the normalizer accepts and every assignment of
    booleans to the leaves, the input and the returned tree have the same
    truth value, AND and OR being the conjunction and the disjunction,
    NOT the negation (of the disjunction of its children, when there are
    several), and AND_NOT (a; b1 ... bn) being a and not b1 ... and not
    bn. *)
Theorem normalize_preserves_meaning holds opaque_holds t t' :
  normalize t = Ok t' ->
  eval holds opaque_holds t' = eval holds opaque_holds t.
Proof. apply normalize_meaning. Qed.

Lemma normalize_preserves_meaning_witness :
  eval (fun column_ term_ => String.eqb term_ "a" || String.eqb term_ "c")
       (fun _ _ => false)
       (AndNotQueryNode 1
          [term "a"; AndQueryNode 1 [term "b"; OrQueryNode 1 [term "c"; term "d"]]])
  = eval (fun column_ term_ => String.eqb term_ "a" || String.eqb term_ "c")
         (fun _ _ => false)
         (AndQueryNode 1
            [term "a";
             OrQueryNode 1
               [NotQueryNode 1 [term "b"];
                NotQueryNode 1 [OrQueryNode 1 [term "c"; term "d"]]]]).
Proof.
  apply (@normalize_preserves_meaning
           (fun column_ term_ => String.eqb term_ "a" || String.eqb term_ "c")
           (fun _ _ => false)
           (AndQueryNode 1
              [term "a";
               OrQueryNode 1
                 [NotQueryNode 1 [term "b"];
                  NotQueryNode 1 [OrQueryNode 1 [term "c"; term "d"]]]])).
  reflexivity.
Defined.

(** ** The rules produce the normal form *)

Lemma normal_form_multi negated k w cs :
  normal_form negated (MultiQueryNode k w cs) =
  is_fresh w && (min_arity k <=? List.length cs)%nat &&
  match cs with
  | [] => true
  | c :: others =>
      item negated k true c && forallb (item negated k false) others
  end.
Proof. reflexivity. Qed.

Lemma item_first negated k c :
  k <> AndNotKind -> item negated k true c = item negated k false c.
Proof.
  intros Hk. unfold item. destruct k; try congruence; reflexivity.
Qed.

Lemma normal_form_plain negated k w cs :
  k <> AndNotKind ->
  normal_form negated (MultiQueryNode k w cs) =
  is_fresh w && (min_arity k <=? List.length cs)%nat
  && forallb (item negated k false) cs.
Proof.
  intros Hk. rewrite normal_form_multi.
  destruct cs as [|c cs]; [reflexivity|].
  simpl forallb. now rewrite item_first.
Qed.

Lemma is_fresh_fresh : is_fresh fresh_weight = true.
Proof. reflexivity. Qed.

Lemma rules_permit_mono k first ty :
  rules_permit false k first ty = true -> rules_permit true k first ty = true.
Proof. destruct k, ty; simpl; auto. Qed.

Lemma forallb_impl {A : Type} (f g : A -> bool) (l : list A) :
  Forall (fun a => f a = true -> g a = true) l ->
  forallb f l = true -> forallb g l = true.
Proof.
  induction 1 as [|a l Ha _ IH]; simpl; [reflexivity|].
  intros H. apply andb_true_iff in H as [H1 H2].
  apply andb_true_iff. split; auto.
Qed.

(** A tree in normal form stays so when it is moved below a negation. *)
Lemma normal_form_mono n :
  normal_form false n = true -> normal_form true n = true.
Proof.
  induction n as [w t c|k w p|k w cs IH] using QueryNode_ind; try reflexivity.
  rewrite !normal_form_multi. intros H.
  apply andb_true_iff in H as [H Hc]. rewrite H. simpl.
  destruct cs as [|c others]; [reflexivity|].
  inversion IH as [|? ? IHc IHo]; subst.
  apply andb_true_iff in Hc as [Hc Ho].
  assert (step : forall first d,
             (normal_form false d = true -> normal_form true d = true) ->
             item false k first d = true -> item true k first d = true).
  { intros first d IHd Hd. unfold item in *.
    apply andb_true_iff in Hd as [Hp Hn].
    rewrite (rules_permit_mono _ _ _ Hp). simpl.
    destruct k; simpl in *; auto. }
  rewrite (step true c IHc Hc). simpl.
  revert Ho. apply forallb_impl.
  eapply Forall_impl; [|exact IHo]. intros d IHd. now apply step.
Qed.

Lemma Forall_forallb {A : Type} (f : A -> bool) (l : list A) :
  Forall (fun a => f a = true) l <-> forallb f l = true.
Proof.
  rewrite forallb_forall, Forall_forall. reflexivity.
Qed.

Lemma or_item_sub c : or_item c = true -> sub_item c = true.
Proof.
  unfold item. intros H. apply andb_true_iff in H as [Hp Hn].
  apply andb_true_iff. split.
  - destruct (GetType c); simpl in *; auto.
  - simpl in *. now apply normal_form_mono.
Qed.

(** What a normalized child of each kind looks like. *)
Lemma normal_and w cs :
  normal_form false (AndQueryNode w cs) = true ->
  (2 <= List.length cs)%nat /\ Forall (fun c => and_item c = true) cs.
Proof.
  rewrite normal_form_plain by discriminate. intros H.
  apply andb_true_iff in H as [H Hc]. apply andb_true_iff in H as [_ Hl].
  split; [now apply Nat.leb_le in Hl | now apply Forall_forallb].
Qed.

Lemma normal_or w cs :
  normal_form false (OrQueryNode w cs) = true ->
  (2 <= List.length cs)%nat /\ Forall (fun c => or_item c = true) cs.
Proof.
  rewrite normal_form_plain by discriminate. intros H.
  apply andb_true_iff in H as [H Hc]. apply andb_true_iff in H as [_ Hl].
  split; [now apply Nat.leb_le in Hl | now apply Forall_forallb].
Qed.

Lemma normal_not negated w cs :
  normal_form negated (NotQueryNode w cs) = true ->
  (1 <= List.length cs)%nat /\ Forall (fun c => sub_item c = true) cs.
Proof.
  rewrite normal_form_plain by discriminate. intros H.
  apply andb_true_iff in H as [H Hc]. apply andb_true_iff in H as [_ Hl].
  split; [now apply Nat.leb_le in Hl|].
  apply Forall_forallb. destruct negated; exact Hc.
Qed.

Lemma normal_and_not negated w cs :
  normal_form negated (AndNotQueryNode w cs) = true ->
  exists first others,
    cs = first :: others /\ (1 <= List.length others)%nat
    /\ item negated AndNotKind true first = true
    /\ Forall (fun c => sub_item c = true) others.
Proof.
  rewrite normal_form_multi. intros H.
  apply andb_true_iff in H as [H Hc]. apply andb_true_iff in H as [_ Hl].
  apply Nat.leb_le in Hl. destruct cs as [|first others]; [simpl in Hl; lia|].
  exists first, others. simpl in Hl.
  apply andb_true_iff in Hc as [Hf Ho].
  repeat split; [lia | assumption |].
  apply Forall_forallb. revert Ho. apply forallb_impl.
  apply Forall_forall. intros c _. unfold item.
  destruct negated; destruct (GetType c); simpl; auto.
Qed.

Lemma normal_form_plain_intro negated k cs :
  k <> AndNotKind ->
  (min_arity k <= List.length cs)%nat ->
  Forall (fun c => item negated k false c = true) cs ->
  normal_form negated (MultiQueryNode k fresh_weight cs) = true.
Proof.
  intros Hk Hl Hc. rewrite normal_form_plain by assumption.
  rewrite is_fresh_fresh. apply andb_true_iff. split.
  - apply Nat.leb_le. exact Hl.
  - now apply Forall_forallb.
Qed.

Lemma sub_item_intro c :
  (GetType c = TERM \/ GetType c = AND \/ GetType c = AND_NOT) ->
  normal_form false c = true -> sub_item c = true.
Proof.
  intros Ty Hn. unfold item. apply andb_true_iff. split.
  - destruct Ty as [-> | [-> | ->]]; reflexivity.
  - simpl. now apply normal_form_mono.
Qed.

Lemma not_loop_normal cs : forall acc l,
  Forall (fun c => normal_form false c = true) cs ->
  Forall (fun c => sub_item c = true) acc ->
  for_each not_step cs acc = Ok l ->
  Forall (fun c => sub_item c = true) l
  /\ (List.length acc + List.length cs <= List.length l)%nat.
Proof.
  induction cs as [|c cs IH]; simpl; intros acc l Hcs Hacc H.
  - injection H as <-. split; [assumption | lia].
  - inversion Hcs as [|? ? Hc Hcs']; subst. bind_inv H.
    assert (Hstep : Forall (fun c => sub_item c = true) a
                    /\ (List.length acc + 1 <= List.length a)%nat).
    { unfold not_step in Ha.
      destruct (GetType c) eqn:Ty; try discriminate; injection Ha as <-;
        rewrite length_app; (split; [apply Forall_app; split; [assumption|]
                                    | simpl; try lia]).
      - constructor; [|constructor]. apply sub_item_intro; auto.
      - constructor; [|constructor]. apply sub_item_intro; auto.
      - constructor; [|constructor]. apply sub_item_intro; auto.
      - destruct c as [? ? ?|[] ? ?|[] w cs1]; try discriminate.
        apply normal_or in Hc as [_ Hc]. simpl.
        eapply Forall_impl; [|exact Hc]. apply or_item_sub.
      - destruct c as [? ? ?|[] ? ?|[] w cs1]; try discriminate.
        apply normal_or in Hc as [Hl _]. simpl. lia. }
    destruct Hstep as [Ha1 Ha2].
    destruct (IH a l Hcs' Ha1 H) as [Hl1 Hl2]. split; [assumption | lia].
Qed.

Lemma and_share_normal c al nl :
  normal_form false c = true ->
  and_share c = Ok (al, nl) ->
  Forall (fun c => and_item c = true) al
  /\ Forall (fun c => sub_item c = true) nl
  /\ (1 <= List.length al + List.length nl)%nat.
Proof.
  intros Hc.
  destruct c as [w t col|k w p|[] w cs]; simpl; try discriminate.
  - intros H. injection H as <- <-. repeat split; simpl; auto.
  - intros H. injection H as <- <-.
    apply normal_and in Hc as [Hl Hc]. repeat split; auto. lia.
  - apply normal_and_not in Hc as (first & others & -> & Hl & Hf & Ho).
    unfold item in Hf. apply andb_true_iff in Hf as [Hp Hn].
    simpl in Hn.
    destruct first as [w1 t1 c1|[] w1 p1|[] w1 cs1]; simpl in Hp;
      try discriminate; intros H; injection H as <- <-;
      repeat split; simpl; auto; try lia.
    apply normal_and in Hn as [_ Hn]. assumption.
  - intros H. injection H as <- <-. repeat split; simpl; auto.
  - intros H. injection H as <- <-.
    apply normal_not in Hc as [Hl Hc]. repeat split; simpl; auto.
Qed.

Lemma and_partition_normal cs : forall al nl,
  Forall (fun c => normal_form false c = true) cs ->
  and_partition cs = Ok (al, nl) ->
  Forall (fun c => and_item c = true) al
  /\ Forall (fun c => sub_item c = true) nl
  /\ (List.length cs <= List.length al + List.length nl)%nat.
Proof.
  induction cs as [|c cs IH]; simpl; intros al nl Hcs H.
  - injection H as <- <-. repeat split; auto.
  - inversion Hcs as [|? ? Hc Hcs']; subst.
    bind_inv H. bind_inv H. injection H as <- <-.
    destruct a as [a n], a0 as [a' n']. simpl.
    destruct (and_share_normal _ Hc Ha) as (H1 & H2 & H3).
    destruct (IH _ _ Hcs' Ha0) as (H4 & H5 & H6).
    rewrite !length_app.
    repeat split; try (apply Forall_app; split; assumption). lia.
Qed.

Lemma sub_item_others c :
  sub_item c = true -> item false AndNotKind false c = true.
Proof.
  unfold item. destruct (GetType c); simpl; auto.
Qed.

Lemma and_build_normal al nl :
  Forall (fun c => and_item c = true) al ->
  Forall (fun c => sub_item c = true) nl ->
  (2 <= List.length al + List.length nl)%nat ->
  normal_form false (and_build al nl) = true.
Proof.
  intros Ha Hn Hl. unfold and_build.
  destruct al as [|a al]; simpl is_empty; cbv iota.
  - apply normal_form_plain_intro; [discriminate | simpl in *; lia | exact Hn].
  - destruct nl as [|n nl]; simpl is_empty; cbv iota.
    + apply normal_form_plain_intro;
        [discriminate | simpl in *; lia | exact Ha].
    + rewrite normal_form_multi, is_fresh_fresh.
      apply andb_true_iff. split; [reflexivity|].
      apply andb_true_iff. split.
      * destruct al as [|a' al].
        -- inversion Ha as [|? ? Hi _]; subst. unfold item in *.
           apply andb_true_iff in Hi as [Hp Hnf]. simpl in Hnf.
           simpl child_negated. rewrite Hnf.
           destruct (GetType a); simpl in *; auto.
        -- unfold item. simpl GetType. simpl rules_permit.
           simpl child_negated.
           rewrite andb_true_l.
           apply normal_form_plain_intro;
             [discriminate | simpl; lia | exact Ha].
      * apply Forall_forallb.
        eapply Forall_impl; [|exact Hn]. apply sub_item_others.
Qed.

Lemma or_loop_normal cs : forall ol nl ol' nl',
  Forall (fun c => normal_form false c = true) cs ->
  Forall (fun c => or_item c = true) ol ->
  Forall (fun c => GetType c = NOT /\ normal_form false c = true) nl ->
  for_each or_step cs (ol, nl) = Ok (ol', nl') ->
  Forall (fun c => or_item c = true) ol'
  /\ Forall (fun c => GetType c = NOT /\ normal_form false c = true) nl'
  /\ (List.length ol + List.length nl + List.length cs
      <= List.length ol' + List.length nl')%nat.
Proof.
  induction cs as [|c cs IH]; simpl; intros ol nl ol' nl' Hcs Hol Hnl H.
  - injection H as <- <-. repeat split; auto. lia.
  - inversion Hcs as [|? ? Hc Hcs']; subst. bind_inv H.
    destruct a as [ol1 nl1].
    assert (Hstep : Forall (fun c => or_item c = true) ol1
              /\ Forall (fun c => GetType c = NOT
                                  /\ normal_form false c = true) nl1
              /\ (List.length ol + List.length nl + 1
                  <= List.length ol1 + List.length nl1)%nat).
    { unfold or_step in Ha.
      destruct (GetType c) eqn:Ty; try discriminate; injection Ha as <- <-;
        rewrite ?length_app; simpl.
      - repeat split; auto; try lia. apply Forall_app. split; auto.
        constructor; [|constructor]. unfold item. simpl child_negated.
        now rewrite Ty, Hc.
      - repeat split; auto; try lia. apply Forall_app. split; auto.
        constructor; [|constructor]. unfold item. simpl child_negated.
        now rewrite Ty, Hc.
      - repeat split; auto; try lia. apply Forall_app. split; auto.
        constructor; [|constructor]. unfold item. simpl child_negated.
        now rewrite Ty, Hc.
      - destruct c as [? ? ?|[] ? ?|[] w cs1]; try discriminate.
        apply normal_or in Hc as [Hl Hc]. simpl.
        repeat split; auto; try lia. apply Forall_app. now split.
      - repeat split; auto; try lia. apply Forall_app. split; auto. }
    destruct Hstep as (H1 & H2 & H3).
    destruct (IH _ _ _ _ Hcs' H1 H2 H) as (H4 & H5 & H6).
    repeat split; auto. lia.
Qed.

Lemma or_collapse_normal c :
  GetType c = NOT -> normal_form false c = true ->
  item true AndKind false (or_collapse c) = true.
Proof.
  destruct c as [? ? ?|[] ? ?|[] w cs]; try discriminate.
  intros _ Hc. apply normal_not in Hc as [Hl Hc].
  unfold or_collapse. simpl children_of.
  destruct cs as [|g [|g' gs]]; [simpl in Hl; lia| |].
  - inversion Hc as [|? ? Hg _]; subst. unfold item in *.
    apply andb_true_iff in Hg as [Hp Hn]. simpl in Hn. simpl child_negated.
    rewrite Hn. destruct (GetType g); simpl in *; auto.
  - unfold item. simpl GetType. simpl rules_permit. simpl child_negated.
    rewrite andb_true_l.
    apply normal_form_plain_intro; [discriminate | simpl; lia |].
    eapply Forall_impl; [|exact Hc].
    intros d Hd. unfold item in *. destruct (GetType d); simpl in *; auto.
Qed.

Lemma inner_normal k cs t' :
  Forall (fun c => normal_form false c = true) cs ->
  OptimizeInPlaceInner k cs = Ok t' ->
  normal_form false t' = true.
Proof.
  intros Hcs. destruct k; simpl.
  - unfold AndOptimizeInPlaceInner.
    destruct (List.length cs <? 2)%nat eqn:Hl; [discriminate|].
    apply Nat.ltb_ge in Hl.
    rewrite and_loop_start. intros H. bind_inv H. injection H as <-.
    destruct a as [al nl]. simpl.
    destruct (and_partition_normal Hcs Ha) as (H1 & H2 & H3).
    apply and_build_normal; auto. lia.
  - discriminate.
  - unfold OrOptimizeInPlaceInner.
    destruct (List.length cs <? 2)%nat eqn:Hl; [discriminate|].
    apply Nat.ltb_ge in Hl.
    intros H. bind_inv H. destruct a as [ol nl].
    apply or_loop_normal in Ha; auto.
    destruct Ha as (H1 & H2 & H3). simpl in H3.
    destruct ol as [|o ol]; simpl in H.
    + injection H as <-. simpl in H3.
      apply normal_form_plain_intro; [discriminate | simpl; lia |].
      constructor; [|constructor].
      unfold item. simpl GetType. simpl rules_permit. simpl child_negated.
      rewrite andb_true_l.
      apply normal_form_plain_intro;
        [discriminate | rewrite length_map; simpl; lia |].
      apply Forall_map.
      eapply Forall_impl; [|exact H2].
      intros d [Hd1 Hd2]. now apply or_collapse_normal.
    + destruct nl as [|n nl]; [|discriminate]. injection H as <-.
      apply normal_form_plain_intro;
        [discriminate | simpl in *; lia | exact H1].
  - unfold NotOptimizeInPlaceInner.
    destruct cs as [|c cs]; [discriminate|]. simpl is_empty. cbv iota.
    intros H. bind_inv H. injection H as <-.
    apply not_loop_normal in Ha; auto.
    destruct Ha as [H1 H2].
    apply normal_form_plain_intro;
      [discriminate | simpl in *; lia | exact H1].
Qed.

Lemma normalize_normal t : forall t',
  normalize t = Ok t' -> normal_form false t' = true.
Proof.
  induction t as [w term col|k w p|k w cs IH] using QueryNode_ind;
    intros t' H.
  - simpl in H. now injection H as <-.
  - simpl in H. now injection H as <-.
  - rewrite normalize_multi in H. bind_inv H.
    apply (@inner_normal k a); [|assumption].
    apply normalize_each_Forall2 in Ha. clear H.
    induction Ha as [|c c' cs cs' Hc _ IHa]; [constructor|].
    inversion IH; subst. constructor; [now apply H1 | now apply IHa].
Qed.

(** No node of a tree in normal form has a child of a kind that no row
    permits below it. *)
Lemma normal_form_nests pk ty n : forall negated,
  (forall negated first, rules_permit negated pk first ty = false) ->
  normal_form negated n = true ->
  nests (MultiType pk) ty n = false.
Proof.
  induction n as [w t c|k w p|k w cs IH] using QueryNode_ind;
    intros negated Hno Hn; try reflexivity.
  rewrite normal_form_multi in Hn.
  apply andb_true_iff in Hn as [_ Hn].
  assert (Hall : forall first d,
             (forall negated, (forall negated first,
                 rules_permit negated pk first ty = false) ->
               normal_form negated d = true ->
               nests (MultiType pk) ty d = false) ->
             item negated k first d = true ->
             (type_eqb (MultiType k) (MultiType pk)
              && type_eqb (GetType d) ty = false)
             /\ nests (MultiType pk) ty d = false).
  { intros first d IHd Hd. unfold item in Hd.
    apply andb_true_iff in Hd as [Hp Hd]. split.
    - destruct (type_eqb (GetType d) ty) eqn:E; [|apply andb_false_r].
      assert (GetType d = ty) by (destruct (GetType d), ty; easy). subst ty.
      destruct (type_eqb (MultiType k) (MultiType pk)) eqn:E'; [|reflexivity].
      assert (k = pk) by (destruct k, pk; easy). subst pk.
      now rewrite Hno in Hp.
    - eapply IHd; eassumption. }
  simpl.
  assert (Hcs : Forall (fun d =>
             (type_eqb (MultiType k) (MultiType pk)
              && type_eqb (GetType d) ty = false)
             /\ nests (MultiType pk) ty d = false) cs).
  { destruct cs as [|c others]; [constructor|].
    inversion IH as [|? ? IHc IHo]; subst.
    apply andb_true_iff in Hn as [Hc Ho].
    constructor; [now apply (Hall true)|].
    apply Forall_forallb in Ho.
    clear - Ho IHo Hall. induction Ho as [|d ds Hd _ IHds]; [constructor|].
    inversion IHo; subst. constructor; [now apply (Hall false) | auto]. }
  clear - Hcs. apply orb_false_iff.
  induction Hcs as [|d ds [H1 H2] _ [IH1 IH2]]; simpl.
  - split; [apply andb_false_r | reflexivity].
  - rewrite H2, IH2. split; [|reflexivity].
    destruct (type_eqb (MultiType k) (MultiType pk)); simpl in *; [|reflexivity].
    now rewrite H1, IH1.
Qed.

(** C1, amended.  The tree that the normalizer returns is in the normal form
    of the rules: every composite node is a fresh one with weight 1.0; AND
    has at least 2 children, each a TERM or an OR, or also an AND or an
    AND_NOT when the AND stands below a negation; OR has at least 2
    children, each a TERM, AND or AND_NOT; NOT has at least 1 child, each a
    TERM, AND or AND_NOT; AND_NOT has at least 2 children, the first a
    TERM, AND or OR, every other one a TERM, AND or AND_NOT.  So no OR
    contains an OR and no NOT contains a NOT. *)
Theorem normalize_normal_form t t' :
  normalize t = Ok t' ->
  normal_form false t' = true
  /\ nests OR OR t' = false
  /\ nests NOT NOT t' = false.
Proof.
  intros H. apply normalize_normal in H. split; [assumption|]. split.
  - apply (@normal_form_nests OrKind OR t' false); [|assumption].
    intros [] []; reflexivity.
  - apply (@normal_form_nests NotKind NOT t' false); [|assumption].
    intros [] []; reflexivity.
Qed.

Lemma normalize_normal_form_witness :
  normal_form false
    (AndNotQueryNode 1 [TermQueryNode (3 # 2) "a" "body"; term "b"]) = true
  /\ nests OR OR
       (AndNotQueryNode 1 [TermQueryNode (3 # 2) "a" "body"; term "b"]) = false
  /\ nests NOT NOT
       (AndNotQueryNode 1 [TermQueryNode (3 # 2) "a" "body"; term "b"]) = false.
Proof.
  apply (@normalize_normal_form
           (AndQueryNode (1 # 2)
              [TermQueryNode (3 # 2) "a" "body"; NotQueryNode 3 [term "b"]])).
  reflexivity.
Defined.

(** The table of section 3 and its consequences (a) and (d) fail on a
    tree that the normalizer returns: an AND_NOT is taken as it is into the
    subtrahends of the AND_NOT above it. *)
Lemma table_fails :
  normalize
    (AndQueryNode 1
       [term "x";
        NotQueryNode 1 [AndQueryNode 1 [term "a"; NotQueryNode 1 [term "b"]]]])
  = Ok (AndNotQueryNode 1
          [term "x"; AndNotQueryNode 1 [term "a"; term "b"]])
  /\ satisfies_table
       (AndNotQueryNode 1
          [term "x"; AndNotQueryNode 1 [term "a"; term "b"]]) = false
  /\ table_consequences
       (AndNotQueryNode 1
          [term "x"; AndNotQueryNode 1 [term "a"; term "b"]]) = false.
Proof. repeat split. Qed.

(** An AND_NOT directly under a NOT, and an AND directly under an AND: both
    are returned too. *)
Example and_not_under_not :
  normalize
    (NotQueryNode 1 [AndQueryNode 1 [term "a"; NotQueryNode 1 [term "b"]]])
  = Ok (NotQueryNode 1 [AndNotQueryNode 1 [term "a"; term "b"]]).
Proof. reflexivity. Qed.

Example and_under_and :
  normalize
    (AndQueryNode 1
       [term "x";
        OrQueryNode 1 [NotQueryNode 1 [AndQueryNode 1 [term "a"; term "b"]];
                       NotQueryNode 1 [term "c"]]])
  = Ok (AndNotQueryNode 1
          [term "x";
           AndQueryNode 1 [AndQueryNode 1 [term "a"; term "b"]; term "c"]]).
Proof. reflexivity. Qed.

(** ** A second run *)

Lemma normalize_each_ok_all cs cs' :
  normalize_each cs = Ok cs' ->
  Forall (fun c => is_ok (normalize c) = true) cs.
Proof.
  intros H. apply normalize_each_Forall2 in H.
  induction H as [|c c' cs cs' Hc _ IH]; constructor; [|assumption].
  now rewrite Hc.
Qed.

(** The rule of AND_NOT throws, at whatever depth the node sits. *)
Lemma and_not_rejected t :
  contains AND_NOT t = true -> is_ok (normalize t) = false.
Proof.
  induction t as [w term col|[] w p|k w cs IH] using QueryNode_ind;
    try discriminate.
  intros H. rewrite normalize_multi.
  destruct (normalize_each cs) as [cs'| |] eqn:E; try reflexivity.
  apply normalize_each_ok_all in E.
  simpl in H. destruct k; simpl in *; try reflexivity;
    (exfalso; clear - H E IH;
     induction IH as [|c cs IHc _ IHcs]; [discriminate|];
     inversion E as [|? ? Ec Ecs]; subst; simpl in H;
     apply orb_true_iff in H as [H|H];
     [rewrite (IHc H) in Ec; discriminate | now apply IHcs]).
Qed.

Lemma is_fresh_eq w : is_fresh w = true -> w = fresh_weight.
Proof.
  destruct w as [n d]. unfold is_fresh. cbn [Qnum Qden]. intros H.
  apply andb_true_iff in H as [Hn Hd].
  apply Z.eqb_eq in Hn. apply Pos.eqb_eq in Hd. now subst.
Qed.

Lemma normalize_each_fixed cs :
  Forall (fun c => normalize c = Ok c) cs -> normalize_each cs = Ok cs.
Proof.
  induction 1 as [|c cs Hc _ IH]; simpl; [reflexivity|].
  now rewrite Hc, IH.
Qed.

(** A loop whose every round appends the child. *)
Lemma for_each_appends {S : Type} (body : S -> QueryNode -> Result S)
  (put : S -> QueryNode -> S) cs : forall s,
  Forall (fun c => forall s, body s c = Ok (put s c)) cs ->
  for_each body cs s = Ok (fold_left put cs s).
Proof.
  induction cs as [|c cs IH]; intros s H; simpl; [reflexivity|].
  inversion H as [|? ? Hc Hcs]; subst. rewrite Hc. simpl. now apply IH.
Qed.

Lemma fold_left_snoc {A : Type} (cs : list A) : forall acc,
  fold_left (fun l c => l ++ [c]) cs acc = acc ++ cs.
Proof.
  induction cs as [|c cs IH]; intros acc; simpl.
  - now rewrite app_nil_r.
  - rewrite IH, <- app_assoc. reflexivity.
Qed.

Lemma fold_left_snoc_fst {A B : Type} (cs : list A) : forall (acc : list A) (b : B),
  fold_left (fun l c => (fst l ++ [c], snd l)) cs (acc, b) = (acc ++ cs, b).
Proof.
  induction cs as [|c cs IH]; intros acc b; simpl.
  - now rewrite app_nil_r.
  - rewrite IH, <- app_assoc. reflexivity.
Qed.

(** The children of a settled node are settled, and none is an AND_NOT;
    none is an AND when the node is an AND. *)
Lemma settled_children k w cs :
  settled (MultiQueryNode k w cs) = true ->
  k <> AndNotKind
  /\ Forall (fun c => settled c = true /\ GetType c <> AND_NOT
                      /\ (k = AndKind -> GetType c <> AND)) cs.
Proof.
  unfold settled. intros H. apply andb_true_iff in H as [Hc Hn].
  apply negb_true_iff in Hc, Hn. simpl in Hc, Hn.
  apply orb_false_iff in Hc as [Hk Hc].
  apply orb_false_iff in Hn as [Ha Hn].
  split; [destruct k; easy|].
  induction cs as [|c cs IH]; [constructor|].
  simpl in Hc, Hn, Ha.
  apply orb_false_iff in Hc as [Hc1 Hc2].
  apply orb_false_iff in Hn as [Hn1 Hn2].
  constructor.
  - rewrite Hc1, Hn1. repeat split.
    + intros Ty. destruct c as [? ? ?|[] ? ?|[] ? ?]; discriminate.
    + intros -> Ty. simpl in Ha. rewrite Ty in Ha. discriminate.
  - apply IH; [assumption| |assumption].
    destruct (type_eqb (MultiType k) AND); [|reflexivity].
    simpl in *. now apply orb_false_iff in Ha as [_ Ha].
Qed.

Lemma settled_fixed n : forall negated,
  normal_form negated n = true -> settled n = true -> normalize n = Ok n.
Proof.
  induction n as [w term col|k w p|k w cs IH] using QueryNode_ind;
    intros negated Hn Hs; try reflexivity.
  rewrite normalize_multi.
  destruct (settled_children _ _ _ Hs) as [Hk Hcs].
  rewrite normal_form_plain in Hn by assumption.
  apply andb_true_iff in Hn as [Hn Hi].
  apply andb_true_iff in Hn as [Hw Hl].
  apply is_fresh_eq in Hw. subst w. apply Nat.leb_le in Hl.
  apply Forall_forallb in Hi.
  assert (Hfix : Forall (fun c => normalize c = Ok c) cs).
  { clear - IH Hcs Hi. induction IH as [|c cs IHc _ IHcs]; [constructor|].
    inversion Hcs as [|? ? [Hc _] Hcs']; subst.
    inversion Hi as [|? ? Hic Hi']; subst.
    constructor; [|now apply IHcs].
    unfold item in Hic. apply andb_true_iff in Hic as [_ Hic].
    eapply IHc; eassumption. }
  rewrite (normalize_each_fixed Hfix). simpl bind.
  assert (Hne : is_empty cs = false)
    by (destruct cs; [destruct k; simpl in Hl; lia | reflexivity]).
  destruct k; try congruence; simpl.
  - (* AND: every child is a TERM or an OR *)
    unfold AndOptimizeInPlaceInner.
    replace (List.length cs <? 2)%nat with false
      by (symmetry; apply Nat.ltb_ge; exact Hl).
    rewrite (@for_each_appends _ and_step
               (fun l c => (fst l ++ [c], snd l))).
    + rewrite fold_left_snoc_fst. simpl. unfold and_build.
      now rewrite Hne.
    + clear - Hcs Hi. induction Hcs as [|c cs (_ & H1 & H2) _ IHcs];
        [constructor|].
      inversion Hi as [|? ? Hic Hi']; subst.
      constructor; [|now apply IHcs].
      intros [al nl]. unfold item in Hic.
      apply andb_true_iff in Hic as [Hp _]. unfold and_step.
      destruct (GetType c); simpl in Hp; try discriminate;
        first [ reflexivity
              | exfalso; apply H1; reflexivity
              | exfalso; apply H2; reflexivity ].
  - (* OR: every child is a TERM or an AND *)
    unfold OrOptimizeInPlaceInner.
    replace (List.length cs <? 2)%nat with false
      by (symmetry; apply Nat.ltb_ge; exact Hl).
    rewrite (@for_each_appends _ or_step
               (fun l c => (fst l ++ [c], snd l))).
    + rewrite fold_left_snoc_fst. simpl. now rewrite Hne.
    + clear - Hcs Hi. induction Hcs as [|c cs (_ & H1 & H2) _ IHcs];
        [constructor|].
      inversion Hi as [|? ? Hic Hi']; subst.
      constructor; [|now apply IHcs].
      intros [ol nl]. unfold item in Hic.
      apply andb_true_iff in Hic as [Hp _]. unfold or_step.
      destruct (GetType c); simpl in Hp; try discriminate;
        first [ reflexivity
              | exfalso; apply H1; reflexivity
              | exfalso; apply H2; reflexivity ].
  - (* NOT: every child is a TERM or an AND *)
    unfold NotOptimizeInPlaceInner. rewrite Hne.
    rewrite (@for_each_appends _ not_step (fun l c => l ++ [c])).
    + now rewrite fold_left_snoc.
    + clear - Hcs Hi. induction Hcs as [|c cs (_ & H1 & H2) _ IHcs];
        [constructor|].
      inversion Hi as [|? ? Hic Hi']; subst.
      constructor; [|now apply IHcs].
      intros l. unfold item in Hic.
      apply andb_true_iff in Hic as [Hp _]. unfold not_step.
      destruct (GetType c); simpl in Hp; try discriminate;
        first [ reflexivity
              | exfalso; apply H1; reflexivity
              | exfalso; apply H2; reflexivity ].
Qed.

(** C3, amended.  Normalization is idempotent on the accepted inputs whose
    result has no AND_NOT node and no AND directly inside an AND: there the
    second run succeeds and returns the same tree, weights included.  When
    the result has an AND_NOT node, the second run is rejected. *)
Theorem normalize_twice t t' :
  normalize t = Ok t' ->
  (contains AND_NOT t' = true -> is_ok (normalize t') = false)
  /\ (settled t' = true -> normalize t' = Ok t').
Proof.
  intros H. split.
  - apply and_not_rejected.
  - apply normalize_normal in H. now apply settled_fixed with (negated := false).
Qed.

Lemma normalize_twice_witness :
  normalize
    (AndQueryNode 1
       [TermQueryNode (5 # 2) "a" "body"; term "b";
        OrQueryNode 1 [term "c"; TermQueryNode (5 # 2) "a" "body"]])
  = Ok (AndQueryNode 1
          [TermQueryNode (5 # 2) "a" "body"; term "b";
           OrQueryNode 1 [term "c"; TermQueryNode (5 # 2) "a" "body"]])
  /\ is_ok (normalize (AndNotQueryNode 1 [term "a"; term "b"; term "c"]))
     = false.
Proof.
  split.
  - apply (proj2 (@normalize_twice
             (AndQueryNode (1 # 3)
                [AndQueryNode 2 [TermQueryNode (5 # 2) "a" "body"; term "b"];
                 OrQueryNode 7 [term "c"; TermQueryNode (5 # 2) "a" "body"]])
             _ eq_refl)).
    reflexivity.
  - apply (proj1 (@normalize_twice
             (AndQueryNode 4
                [term "a"; NotQueryNode 1 [OrQueryNode 1 [term "b"; term "c"]]])
             _ eq_refl)).
    reflexivity.
Defined.

(** The second run on the result of the first scenario of the
    specification is rejected. *)
Lemma normalize_twice_fails :
  normalize (AndQueryNode 1 [term "a"; NotQueryNode 1 [term "b"]])
  = Ok (AndNotQueryNode 1 [term "a"; term "b"])
  /\ normalize (AndNotQueryNode 1 [term "a"; term "b"])
     = UnrecoverableError AndNotInInput.
Proof. split; reflexivity. Qed.

(** Without an AND_NOT, an AND that the OR rule built around another AND is
    flattened by the second run. *)
Example normalize_twice_flattens :
  normalize
    (OrQueryNode 1 [NotQueryNode 1 [AndQueryNode 1 [term "a"; term "b"]];
                    NotQueryNode 1 [term "c"]])
  = Ok (NotQueryNode 1
          [AndQueryNode 1 [AndQueryNode 1 [term "a"; term "b"]; term "c"]])
  /\ normalize
       (NotQueryNode 1
          [AndQueryNode 1 [AndQueryNode 1 [term "a"; term "b"]; term "c"]])
     = Ok (NotQueryNode 1 [AndQueryNode 1 [term "a"; term "b"; term "c"]]).
Proof. split; reflexivity. Qed.

(** ** Opaque leaves *)

Lemma for_each_rejects {A S : Type} (body : S -> A -> Result S) (l : list A) :
  forall s,
  Exists (fun a => forall s, is_ok (body s a) = false) l ->
  is_ok (for_each body l s) = false.
Proof.
  induction l as [|a l IH]; intros s H; inversion H as [? ? Ha|? ? Hl]; subst;
    simpl.
  - specialize (Ha s). now destruct (body s a).
  - destruct (body s a); simpl; auto.
Qed.

Lemma bind_rejects {A B : Type} (r : Result A) (k : A -> Result B) :
  is_ok r = false -> is_ok (bind r k) = false.
Proof. now destruct r. Qed.

(** No rule takes a list of children with an opaque leaf in it. *)
Lemma inner_rejects_opaque k cs :
  Exists (fun c => is_opaque (GetType c) = true) cs ->
  is_ok (OptimizeInPlaceInner k cs) = false.
Proof.
  intros H. destruct k; simpl.
  - unfold AndOptimizeInPlaceInner.
    destruct (List.length cs <? 2)%nat; [reflexivity|].
    apply bind_rejects, for_each_rejects.
    eapply Exists_impl; [|exact H]. intros c Hc [al nl].
    unfold and_step. cbv beta in Hc. revert Hc. now destruct (GetType c).
  - reflexivity.
  - unfold OrOptimizeInPlaceInner.
    destruct (List.length cs <? 2)%nat; [reflexivity|].
    apply bind_rejects, for_each_rejects.
    eapply Exists_impl; [|exact H]. intros c Hc [ol nl].
    unfold or_step. cbv beta in Hc. revert Hc. now destruct (GetType c).
  - unfold NotOptimizeInPlaceInner.
    destruct (is_empty cs); [reflexivity|].
    apply bind_rejects, for_each_rejects.
    eapply Exists_impl; [|exact H]. intros c Hc l.
    unfold not_step. cbv beta in Hc. revert Hc. now destruct (GetType c).
Qed.

Lemma opaque_leaf_or_rejected n :
  contains_opaque n = true ->
  (exists k w p, n = OpaqueQueryNode k w p) \/ is_ok (normalize n) = false.
Proof.
  induction n as [w term col|k w p|k w cs IH] using QueryNode_ind;
    intros H; try discriminate.
  - left. now exists k, w, p.
  - right. rewrite normalize_multi.
    destruct (normalize_each cs) as [cs'| |] eqn:E; try reflexivity.
    simpl bind. apply inner_rejects_opaque.
    apply normalize_each_Forall2 in E. simpl in H. clear k w.
    induction E as [|c c' cs cs' Hc _ IHE]; [discriminate|].
    inversion IH as [|? ? IHc IHcs]; subst. simpl in H.
    apply orb_true_iff in H as [H|H].
    + apply Exists_cons_hd. destruct (IHc H) as [(k & w & p & ->)|Hrej].
      * injection Hc as <-. now destruct k.
      * rewrite Hc in Hrej. discriminate.
    + apply Exists_cons_tl. now apply IHE.
Qed.

(** A loop whose rounds can only throw [msg], and one of whose rounds
    throws it whatever the lists hold by then, throws [msg]. *)
Lemma for_each_throws {A S : Type} (body : S -> A -> Result S) (msg : string)
  (l : list A) :
  Forall (fun a => forall s,
            is_ok (body s a) = true \/ body s a = UnrecoverableError msg) l ->
  Exists (fun a => forall s, body s a = UnrecoverableError msg) l ->
  forall s, for_each body l s = UnrecoverableError msg.
Proof.
  induction 1 as [|a l Ha _ IH]; intros He s;
    inversion He as [? ? Hd|? ? Hl]; subst; simpl.
  - now rewrite Hd.
  - destruct (Ha s) as [Hok| ->]; [|reflexivity].
    destruct (body s a); try discriminate. simpl. now apply IH.
Qed.

Lemma opaque_step_throws c :
  is_opaque (GetType c) = true ->
  (forall s, not_step s c = UnrecoverableError UnexpectedKind)
  /\ (forall s, and_step s c = UnrecoverableError UnexpectedKind)
  /\ (forall s, or_step s c = UnrecoverableError UnexpectedKind).
Proof.
  intros H. unfold not_step, and_step, or_step.
  repeat split; intros s; try destruct s as [l1 l2];
    revert H; now destruct (GetType c).
Qed.

Lemma not_step_outcome s c :
  is_ok (not_step s c) = true
  \/ not_step s c = UnrecoverableError UnexpectedKind.
Proof. unfold not_step. destruct (GetType c); auto. Qed.

Lemma or_step_outcome s c :
  is_ok (or_step s c) = true
  \/ or_step s c = UnrecoverableError UnexpectedKind.
Proof. destruct s as [ol nl]. unfold or_step. destruct (GetType c); auto. Qed.

Lemma and_step_outcome s c :
  normal_form false c = true ->
  is_ok (and_step s c) = true
  \/ and_step s c = UnrecoverableError UnexpectedKind.
Proof.
  intros Hn. destruct s as [al nl]. unfold and_step.
  destruct (GetType c) eqn:Ty; auto.
  destruct c as [? ? ?|[] ? ?|[] w cs]; try discriminate.
  apply normal_and_not in Hn as (first & others & -> & _). now left.
Qed.

(** A rule that has enough children in normal form, one of them an opaque
    leaf, throws in the default branch of its loop. *)
Lemma inner_throws_at_opaque k cs :
  k <> AndNotKind ->
  Forall (fun c => normal_form false c = true) cs ->
  (min_arity k <= List.length cs)%nat ->
  existsb (fun c => is_opaque (GetType c)) cs = true ->
  OptimizeInPlaceInner k cs = UnrecoverableError UnexpectedKind.
Proof.
  intros Hk Hn Hl Ho.
  assert (He : Exists (fun c => is_opaque (GetType c) = true) cs).
  { apply existsb_exists in Ho as (c & Hc & Hoc).
    apply Exists_exists. now exists c. }
  destruct k; try congruence; simpl in Hl; simpl.
  - unfold AndOptimizeInPlaceInner.
    replace (List.length cs <? 2)%nat with false
      by (symmetry; apply Nat.ltb_ge; exact Hl).
    rewrite (@for_each_throws _ _ and_step UnexpectedKind cs);
      [reflexivity| |].
    + eapply Forall_impl; [|exact Hn]. intros c Hc s.
      now apply and_step_outcome.
    + eapply Exists_impl; [|exact He]. intros c Hc.
      now apply opaque_step_throws.
  - unfold OrOptimizeInPlaceInner.
    replace (List.length cs <? 2)%nat with false
      by (symmetry; apply Nat.ltb_ge; exact Hl).
    rewrite (@for_each_throws _ _ or_step UnexpectedKind cs);
      [reflexivity| |].
    + apply Forall_forall. intros c _ s. apply or_step_outcome.
    + eapply Exists_impl; [|exact He]. intros c Hc.
      now apply opaque_step_throws.
  - unfold NotOptimizeInPlaceInner.
    destruct cs as [|c cs]; [simpl in Hl; lia|]. simpl is_empty. cbv iota.
    rewrite (@for_each_throws _ _ not_step UnexpectedKind (c :: cs));
      [reflexivity| |].
    + apply Forall_forall. intros d _ s. apply not_step_outcome.
    + eapply Exists_impl; [|exact He]. intros d Hd.
      now apply opaque_step_throws.
Qed.

(** C4, amended.  An opaque leaf is not treated like a TERM.  An input that
    is an opaque leaf is returned unchanged, with its kind, weight and
    payload; every other input that has an opaque leaf in it, at whatever
    depth below a NOT, AND or OR, is rejected.  The error is
    UnexpectedKind, thrown in the default branch of the rule, whenever a
    NOT, AND or OR node passes its arity check and one of its normalized
    children is an opaque leaf. *)
Theorem opaque_leaves :
  (forall n,
     contains_opaque n = true ->
     if is_opaque (GetType n) then normalize n = Ok n
     else is_ok (normalize n) = false)
  /\ (forall k w cs children_,
        k <> AndNotKind ->
        normalize_each cs = Ok children_ ->
        (min_arity k <= List.length children_)%nat ->
        existsb (fun c => is_opaque (GetType c)) children_ = true ->
        normalize (MultiQueryNode k w cs)
        = UnrecoverableError UnexpectedKind).
Proof.
  split.
  - intros n H.
    destruct (opaque_leaf_or_rejected _ H) as [(k & w & p & ->)|Hrej].
    + now destruct k.
    + destruct n as [? ? ?|? ? ?|[] ? ?]; try discriminate; exact Hrej.
  - intros k w cs children_ Hk He Hl Ho.
    rewrite normalize_multi, He. simpl bind.
    apply inner_throws_at_opaque; try assumption.
    apply normalize_each_Forall2 in He. clear - He.
    induction He as [|c c' cs cs' Hc _ IH]; constructor; [|assumption].
    eapply normalize_normal; eassumption.
Qed.

Lemma opaque_leaves_witness :
  is_ok (normalize
           (OrQueryNode 1 [term "a"; AndQueryNode 1 [term "a"; phrase]]))
  = false
  /\ normalize phrase = Ok phrase
  /\ normalize
       (AndQueryNode 2
          [AndQueryNode 1 [term "a"; NotQueryNode 1 [term "b"]]; phrase])
     = UnrecoverableError UnexpectedKind.
Proof.
  split; [|split].
  - apply (proj1 opaque_leaves
             (OrQueryNode 1 [term "a"; AndQueryNode 1 [term "a"; phrase]])).
    reflexivity.
  - apply (proj1 opaque_leaves phrase). reflexivity.
  - apply (proj2 opaque_leaves AndKind 2%Q
             [AndQueryNode 1 [term "a"; NotQueryNode 1 [term "b"]]; phrase]
             [AndNotQueryNode 1 [term "a"; term "b"]; phrase]).
    + discriminate.
    + reflexivity.
    + simpl. lia.
    + reflexivity.
Defined.

(** Below a node that fails its arity check, the opaque leaf is not
    reached: the arity error comes first. *)
Example opaque_leaf_below_small_and :
  normalize (AndQueryNode 1 [phrase]) = UnrecoverableError AndArity.
Proof. reflexivity. Qed.

(** The same query is accepted with a TERM and rejected with a PHRASE in
    its place, below each of AND, OR and NOT. *)
Lemma opaque_leaf_rejected :
  normalize (AndQueryNode 1 [phrase; term "a"])
  = UnrecoverableError UnexpectedKind
  /\ normalize (as_terms (AndQueryNode 1 [phrase; term "a"]))
     = Ok (AndQueryNode 1 [as_terms phrase; term "a"])
  /\ normalize (OrQueryNode 1 [term "a"; phrase])
     = UnrecoverableError UnexpectedKind
  /\ normalize (as_terms (OrQueryNode 1 [term "a"; phrase]))
     = Ok (OrQueryNode 1 [term "a"; as_terms phrase])
  /\ normalize (NotQueryNode 1 [phrase]) = UnrecoverableError UnexpectedKind
  /\ normalize (as_terms (NotQueryNode 1 [phrase]))
     = Ok (NotQueryNode 1 [as_terms phrase]).
Proof. repeat split. Qed.

(** ** The AND rule *)

Lemma and_share_ok c :
  normal_form false c = true -> is_opaque (GetType c) = false ->
  is_ok (and_share c) = true.
Proof.
  intros Hn Ho.
  destruct c as [? ? ?|[] ? ?|[] w cs]; try discriminate; try reflexivity.
  apply normal_and_not in Hn as (first & others & -> & _).
  simpl. now destruct first as [? ? ?|? ? ?|[] ? ?].
Qed.

Lemma and_partition_ok cs :
  Forall (fun c => normal_form false c = true) cs ->
  Forall (fun c => is_opaque (GetType c) = false) cs ->
  is_ok (and_partition cs) = true.
Proof.
  induction 1 as [|c cs Hc _ IH]; intros Ho; [reflexivity|].
  inversion Ho as [|? ? Hoc Ho']; subst. simpl.
  pose proof (and_share_ok _ Hc Hoc) as Hs. specialize (IH Ho').
  destruct (and_share c); try discriminate.
  destruct (and_partition cs); try discriminate. reflexivity.
Qed.

Lemma normalize_each_normal cs cs' :
  normalize_each cs = Ok cs' ->
  Forall (fun c => normal_form false c = true) cs'.
Proof.
  intros H. apply normalize_each_Forall2 in H.
  induction H as [|c c' cs cs' Hc _ IH]; constructor; [|assumption].
  eapply normalize_normal; eassumption.
Qed.

(** C5.  For an AND node whose children normalize to at least 2 trees, the
    loop of the rule yields the partition of the specification: an AND
    child gives its children to and_list, a TERM or an OR child itself, a
    NOT child gives its children to not_list, an AND_NOT child gives its
    first child (the children of that child when it is an AND) to and_list
    and the other children to not_list, in the order of the children; any
    other child is rejected.  The partition exists when no child is an
    opaque leaf, and when both lists are non-empty the node is replaced by
    an AND_NOT of weight 1.0 whose first child is the only element of
    and_list, or else a fresh AND of and_list with weight 1.0, followed by
    not_list. *)
Theorem and_rule w cs children_ :
  normalize_each cs = Ok children_ ->
  (2 <= List.length children_)%nat ->
  for_each and_step children_ ([], []) = and_partition children_
  /\ (Forall (fun c => is_opaque (GetType c) = false) children_ ->
      is_ok (and_partition children_) = true)
  /\ forall and_list not_list,
       and_partition children_ = Ok (and_list, not_list) ->
       and_list <> [] -> not_list <> [] ->
       normalize (AndQueryNode w cs)
       = Ok (AndNotQueryNode fresh_weight
               (and_collapsed and_list :: not_list)).
Proof.
  intros Hn Hl. split; [apply and_loop_start|]. split.
  - apply and_partition_ok. eapply normalize_each_normal; eassumption.
  - intros al nl Hp Ha Hnl. rewrite normalize_multi, Hn. simpl.
    unfold AndOptimizeInPlaceInner.
    replace (List.length children_ <? 2)%nat with false
      by (symmetry; apply Nat.ltb_ge; exact Hl).
    rewrite and_loop_start, Hp. simpl. unfold and_build.
    destruct al as [|a al]; [congruence|].
    destruct nl as [|n nl]; [congruence|]. reflexivity.
Qed.

Lemma and_rule_witness :
  normalize
    (AndQueryNode 2
       [AndQueryNode 3 [term "a"; NotQueryNode 1 [term "b"]];
        NotQueryNode 1 [OrQueryNode 1 [term "c"; term "d"]];
        AndQueryNode 1 [term "d"; term "c"]])
  = Ok (AndNotQueryNode 1
          [AndQueryNode 1 [term "a"; term "d"; term "c"];
           term "b"; term "c"; term "d"]).
Proof.
  refine (proj2 (proj2 (@and_rule 2%Q
            [AndQueryNode 3 [term "a"; NotQueryNode 1 [term "b"]];
             NotQueryNode 1 [OrQueryNode 1 [term "c"; term "d"]];
             AndQueryNode 1 [term "d"; term "c"]]
            [AndNotQueryNode 1 [term "a"; term "b"];
             NotQueryNode 1 [term "c"; term "d"];
             AndQueryNode 1 [term "d"; term "c"]] _ _))
            [term "a"; term "d"; term "c"] [term "b"; term "c"; term "d"]
            _ _ _).
  - reflexivity.
  - simpl. lia.
  - reflexivity.
  - discriminate.
  - discriminate.
Defined.

(** ** The OR rule *)

Lemma or_loop_ok cs : forall ol nl,
  Forall (fun c => normal_form false c = true) cs ->
  Forall (fun c => is_opaque (GetType c) = false) cs ->
  exists ol' nl',
    for_each or_step cs (ol, nl) = Ok (ol', nl')
    /\ is_empty ol' = is_empty ol && forallb is_not cs
    /\ is_empty nl' = is_empty nl && forallb (fun c => negb (is_not c)) cs.
Proof.
  induction cs as [|c cs IH]; intros ol nl Hn Ho.
  - exists ol, nl. simpl. now rewrite !andb_true_r.
  - inversion Hn as [|? ? Hnc Hn']; subst.
    inversion Ho as [|? ? Hoc Ho']; subst.
    assert (Hstep : exists ol1 nl1,
               or_step (ol, nl) c = Ok (ol1, nl1)
               /\ is_empty ol1 = is_empty ol && is_not c
               /\ is_empty nl1 = is_empty nl && negb (is_not c)).
    { unfold or_step, is_not.
      destruct c as [? ? ?|[] ? ?|[] w cs1]; try discriminate; simpl;
        eexists; eexists; (split; [reflexivity|]);
        rewrite ?andb_true_r, ?andb_false_r;
        try (split; [now destruct ol | now destruct nl]).
      apply normal_or in Hnc as [Hl _].
      split; [|reflexivity].
      destruct cs1; [simpl in Hl; lia | now destruct ol]. }
    destruct Hstep as (ol1 & nl1 & Hs & H1 & H2).
    destruct (IH ol1 nl1 Hn' Ho') as (ol' & nl' & Hf & H3 & H4).
    exists ol', nl'. cbn [for_each forallb]. rewrite Hs.
    unfold bind. split; [assumption|].
    rewrite H3, H4, H1, H2, !andb_assoc. now split.
Qed.

Lemma or_rule_mixed children_ :
  (2 <= List.length children_)%nat ->
  Forall (fun c => normal_form false c = true) children_ ->
  Forall (fun c => is_opaque (GetType c) = false) children_ ->
  existsb is_not children_ = true ->
  existsb (fun c => negb (is_not c)) children_ = true ->
  OrOptimizeInPlaceInner children_ = UnrecoverableError UnsupportedDisjunction.
Proof.
  intros Hl Hn Ho H1 H2. unfold OrOptimizeInPlaceInner.
  replace (List.length children_ <? 2)%nat with false
    by (symmetry; apply Nat.ltb_ge; exact Hl).
  destruct (or_loop_ok [] [] Hn Ho) as (ol & nl & -> & E1 & E2).
  simpl in E1, E2. simpl.
  assert (F1 : forallb is_not children_ = false).
  { clear - H2. induction children_ as [|c cs IH]; [discriminate|].
    simpl in *. destruct (is_not c); simpl in *; auto. }
  assert (F2 : forallb (fun c => negb (is_not c)) children_ = false).
  { clear - H1. induction children_ as [|c cs IH]; [discriminate|].
    simpl in *. destruct (is_not c); simpl in *; auto. }
  rewrite F1 in E1. rewrite F2 in E2. now rewrite E1, E2.
Qed.

(** C6, amended.  For an OR node whose children normalize to at least 2
    trees, none an opaque leaf, at least one a NOT and at least one not a
    NOT, normalization rejects the query with the UnsupportedDisjunction
    error and returns no tree. *)
Theorem or_rule_rejects_mixed w cs children_ :
  normalize_each cs = Ok children_ ->
  (2 <= List.length children_)%nat ->
  Forall (fun c => is_opaque (GetType c) = false) children_ ->
  existsb is_not children_ = true ->
  existsb (fun c => negb (is_not c)) children_ = true ->
  normalize (OrQueryNode w cs) = UnrecoverableError UnsupportedDisjunction.
Proof.
  intros Hn Hl Ho H1 H2. rewrite normalize_multi, Hn. simpl.
  apply or_rule_mixed; try assumption.
  eapply normalize_each_normal; eassumption.
Qed.

Lemma or_rule_rejects_mixed_witness :
  normalize (OrQueryNode 1 [term "a"; NotQueryNode 1 [term "b"]])
  = UnrecoverableError UnsupportedDisjunction.
Proof.
  apply (@or_rule_rejects_mixed 1%Q [term "a"; NotQueryNode 1 [term "b"]]
           [term "a"; NotQueryNode 1 [term "b"]]).
  - reflexivity.
  - simpl. lia.
  - repeat constructor.
  - reflexivity.
  - reflexivity.
Defined.

(** With an opaque leaf as the child that is not a NOT, the loop of the
    rule throws before the two lists are compared: the query is rejected
    with another error. *)
Lemma or_rule_other_error :
  normalize_each [NotQueryNode 1 [term "b"]; phrase]
  = Ok [NotQueryNode 1 [term "b"]; phrase]
  /\ (2 <= List.length [NotQueryNode 1 [term "b"]; phrase])%nat
  /\ existsb is_not [NotQueryNode 1 [term "b"]; phrase] = true
  /\ existsb (fun c => negb (is_not c)) [NotQueryNode 1 [term "b"]; phrase]
     = true
  /\ normalize (OrQueryNode 1 [NotQueryNode 1 [term "b"]; phrase])
     = UnrecoverableError UnexpectedKind
  /\ normalize (OrQueryNode 1 [NotQueryNode 1 [term "b"]; phrase])
     <> UnrecoverableError UnsupportedDisjunction.
Proof.
  simpl. repeat split; try lia. discriminate.
Qed.

(* ================================================================== *)
(** * Properties of the iterator factory *)

Section FactoryProperties.

Variables ColumnIndexReader PostingIterator : Type.
Variable GetColumnIdByName : string -> ColumnID.
Variable GetColumnIndexReader : ColumnID -> option ColumnIndexReader.
Variable Lookup : ColumnIndexReader -> string -> option PostingIterator.
Variable OpaqueCreateSearch :
  OpaqueKind -> Weight -> string
  -> Build PostingIterator (option (DocIterator PostingIterator)).

Local Abbreviation create :=
  (CreateSearch GetColumnIdByName GetColumnIndexReader Lookup
     OpaqueCreateSearch).
Local Abbreviation collect_all :=
  (collect GetColumnIdByName GetColumnIndexReader Lookup OpaqueCreateSearch).
Local Abbreviation regs :=
  (registrations GetColumnIdByName GetColumnIndexReader Lookup).
Local Abbreviation alive :=
  (survives GetColumnIdByName GetColumnIndexReader Lookup).
Local Abbreviation reached :=
  (reached_leaves GetColumnIdByName GetColumnIndexReader Lookup).

Lemma create_and w cs s :
  create (AndQueryNode w cs) s =
  and_then (collect_all cs [])
    (fun sub_doc_iters =>
       match sub_doc_iters with
       | [] => ret None
       | [only] => ret (Some only)
       | _ => ret (Some (AndIterator sub_doc_iters))
       end) s.
Proof. reflexivity. Qed.

Lemma create_or w cs s :
  create (OrQueryNode w cs) s =
  and_then (collect_all cs [])
    (fun sub_doc_iters =>
       match sub_doc_iters with
       | [] => ret None
       | [only] => ret (Some only)
       | _ => ret (Some (OrIterator sub_doc_iters))
       end) s.
Proof. reflexivity. Qed.

Lemma create_and_not w first others s :
  create (AndNotQueryNode w (first :: others)) s =
  and_then (create first)
    (fun first_iter =>
       match first_iter with
       | None => ret None
       | Some it =>
           and_then (collect_all others [it])
             (fun sub_doc_iters =>
                match sub_doc_iters with
                | [only] => ret (Some only)
                | _ => ret (Some (AndNotIterator sub_doc_iters))
                end)
       end) s.
Proof. reflexivity. Qed.

Lemma regs_app l1 l2 : regs (l1 ++ l2) = regs l1 ++ regs l2.
Proof.
  induction l1 as [|leaf l1 IH]; simpl; [reflexivity|].
  destruct (registration _ _ _ _ _); simpl; now rewrite IH.
Qed.

Lemma create_term w term_ column_ s :
  create (TermQueryNode w term_ column_) s =
  (Ok (option_map fst
         (registration GetColumnIdByName GetColumnIndexReader Lookup
            term_ column_)),
   s ++ regs [(term_, column_)]).
Proof.
  simpl. unfold TermCreateSearch, registration.
  destruct (GetColumnIndexReader _) as [reader|];
    [destruct (Lookup reader term_) as [posting|]|];
    simpl; unfold ret; now rewrite ?app_nil_r.
Qed.

(** The factory on a tree it can run on: what it returns and what it
    leaves in the scorer. *)
Lemma create_executable n :
  executable n = true ->
  forall s, exists r,
    create n s = (Ok r, s ++ regs (reached n))
    /\ is_none r = negb (existsb alive (positive_leaves n)).
Proof.
  induction n as [w term_ column_|k w p|k w cs IH] using QueryNode_ind;
    intros He s; try discriminate.
  - rewrite create_term. eexists. split; [reflexivity|].
    simpl. unfold survives. simpl.
    destruct (registration _ _ _ _ _); reflexivity.
  - assert (Hcollect : forall l,
       Forall (fun c => executable c = true ->
                 forall s, exists r,
                   create c s = (Ok r, s ++ regs (reached c))
                   /\ is_none r = negb (existsb alive (positive_leaves c))) l ->
       forallb executable l = true ->
       forall acc s, exists acc',
         collect_all l acc s
         = (Ok acc', s ++ regs (flat_map reached l))
         /\ is_empty acc'
            = is_empty acc
              && negb (existsb alive (flat_map positive_leaves l))).
    { clear. induction l as [|c l IHl]; intros IH He acc s.
      - exists acc. simpl. unfold ret.
        now rewrite app_nil_r, andb_true_r.
      - inversion IH as [|? ? IHc IHcs]; subst. simpl in He.
        apply andb_true_iff in He as [Hc Hl].
        destruct (IHc Hc s) as (r & Er & Hr).
        destruct (IHl IHcs Hl (keep acc r)
                    (s ++ regs (reached c))) as (acc' & Ea & Ha).
        exists acc'. simpl. unfold and_then at 1. rewrite Er, Ea.
        rewrite regs_app, app_assoc. split; [reflexivity|].
        rewrite Ha, existsb_app, negb_orb, andb_assoc. f_equal.
        rewrite <- Hr. destruct r; simpl; [|now rewrite andb_true_r].
        rewrite andb_false_r. now destruct acc. }
    destruct k; simpl in He; try discriminate.
    + (* AND *)
      destruct (Hcollect cs IH He [] s) as (acc' & Ea & Ha).
      rewrite create_and. unfold and_then. rewrite Ea.
      simpl in Ha. simpl positive_leaves. simpl reached_leaves.
      rewrite <- Ha.
      destruct acc' as [|i [|i' acc']]; eexists; split; reflexivity.
    + (* AND_NOT *)
      destruct cs as [|first others]; [discriminate|].
      simpl in He. apply andb_true_iff in He as [Hf Ho].
      inversion IH as [|? ? IHf IHo]; subst.
      destruct (IHf Hf s) as (r & Er & Hr).
      rewrite create_and_not. unfold and_then at 1. rewrite Er.
      simpl positive_leaves. simpl reached_leaves.
      destruct r as [it|]; simpl in Hr.
      * apply (f_equal negb) in Hr. rewrite negb_involutive in Hr.
        simpl in Hr. rewrite <- Hr.
        destruct (Hcollect others IHo Ho [it]
                    (s ++ regs (reached first))) as (acc' & Ea & Ha).
        unfold and_then. rewrite Ea. rewrite regs_app, app_assoc.
        simpl in Ha.
        destruct acc' as [|i [|i' acc']]; try discriminate;
          eexists; split; reflexivity.
      * apply (f_equal negb) in Hr. rewrite negb_involutive in Hr.
        simpl in Hr. rewrite <- Hr. rewrite app_nil_r.
        exists None. split; reflexivity.
    + (* OR *)
      destruct (Hcollect cs IH He [] s) as (acc' & Ea & Ha).
      rewrite create_or. unfold and_then. rewrite Ea.
      simpl in Ha. simpl positive_leaves. simpl reached_leaves.
      rewrite <- Ha.
      destruct acc' as [|i [|i' acc']]; eexists; split; reflexivity.
Qed.

(** C7, amended.  On a tree the factory can run on (no NOT, no opaque leaf,
    every AND_NOT with its first child), create_search returns absent
    exactly when no TERM leaf outside the subtrahends resolves: the leaves
    below an AND or an OR node, and below the first child of an AND_NOT
    only.  An AND_NOT subtree builds to absent exactly when its first child
    does, whatever its other children are. *)
Theorem create_absent n s :
  executable n = true ->
  absent (CreateSearch GetColumnIdByName GetColumnIndexReader Lookup
            OpaqueCreateSearch n s)
  = forallb (fun leaf =>
               negb (survives GetColumnIdByName GetColumnIndexReader Lookup
                       leaf))
      (positive_leaves n)
  /\ forall w others,
       absent (CreateSearch GetColumnIdByName GetColumnIndexReader Lookup
                 OpaqueCreateSearch (AndNotQueryNode w (n :: others)) s)
       = absent (CreateSearch GetColumnIdByName GetColumnIndexReader Lookup
                   OpaqueCreateSearch n s).
Proof.
  intros He. split.
  - destruct (create_executable n He s) as (r & Er & Hr).
    unfold absent. rewrite Er. simpl.
    transitivity (is_none r); [now destruct r|]. rewrite Hr. clear.
    induction (positive_leaves n) as [|leaf l IH]; simpl; [reflexivity|].
    now rewrite negb_orb, IH.
  - intros w others. rewrite create_and_not. unfold and_then at 1.
    unfold absent.
    destruct (create n s) as [[[it|]| |] s']; simpl; try reflexivity.
    unfold and_then.
    destruct (collect_all others [it] s') as [[acc| |] s'']; simpl;
      try reflexivity.
    now destruct acc as [|i [|i' acc]].
Qed.

(** C8, amended.  On a tree the factory can run on, the registrations that
    create_search adds to the scorer are those of the TERM leaves whose
    two lookups succeed, in the left-to-right order of the tree, without
    the leaves below the subtrahends of an AND_NOT whose first child
    builds to absent. *)
Theorem create_registers n s :
  executable n = true ->
  snd (CreateSearch GetColumnIdByName GetColumnIndexReader Lookup
         OpaqueCreateSearch n s)
  = s ++ registrations GetColumnIdByName GetColumnIndexReader Lookup
           (reached_leaves GetColumnIdByName GetColumnIndexReader Lookup n).
Proof.
  intros He. destruct (create_executable n He s) as (r & Er & _).
  now rewrite Er.
Qed.

(** C9.  When the first child of an AND_NOT builds to absent, the AND_NOT
    returns absent and leaves the scorer as the first child left it,
    whatever the other children are: none of them is built. *)
Theorem and_not_stops_early w first others s s' :
  CreateSearch GetColumnIdByName GetColumnIndexReader Lookup
    OpaqueCreateSearch first s = (Ok None, s') ->
  CreateSearch GetColumnIdByName GetColumnIndexReader Lookup
    OpaqueCreateSearch (AndNotQueryNode w (first :: others)) s
  = (Ok None, s').
Proof.
  intros H. rewrite create_and_not. unfold and_then. now rewrite H.
Qed.

End FactoryProperties.

Lemma create_absent_witness :
  absent (sample_create
            (OrQueryNode 1 [term "a"; AndQueryNode 1 [title "c"; term "a"]])
            [])
  = true.
Proof.
  apply (@create_absent unit nat sample_column sample_reader sample_lookup
           sample_opaque
           (OrQueryNode 1 [term "a"; AndQueryNode 1 [title "c"; term "a"]])
           [] eq_refl).
Defined.

(** An OR that the table of section 3 permits builds to absent although
    one of its leaves resolves: the leaf is a subtrahend. *)
Lemma absent_with_resolving_leaf :
  satisfies_table
    (OrQueryNode 1 [term "a"; AndNotQueryNode 1 [term "b"; term "c"]]) = true
  /\ absent (sample_create
               (OrQueryNode 1
                  [term "a"; AndNotQueryNode 1 [term "b"; term "c"]]) [])
     = true
  /\ forallb (fun leaf =>
                negb (survives sample_column sample_reader sample_lookup leaf))
       (term_leaves
          (OrQueryNode 1 [term "a"; AndNotQueryNode 1 [term "b"; term "c"]]))
     = false.
Proof. repeat split. Qed.

Lemma create_registers_witness :
  snd (sample_create
         (AndQueryNode 1
            [term "d";
             OrQueryNode 1 [term "a"; AndNotQueryNode 1 [term "a"; term "c"]];
             term "c"]) [])
  = [(TermDocIterator 40 1%N, 1%N); (TermDocIterator 30 1%N, 1%N)].
Proof.
  exact (@create_registers unit nat sample_column sample_reader sample_lookup
           sample_opaque
           (AndQueryNode 1
              [term "d";
               OrQueryNode 1
                 [term "a"; AndNotQueryNode 1 [term "a"; term "c"]];
               term "c"]) [] eq_refl).
Defined.

(** The subtrahend of an AND_NOT resolves and is not registered, because
    the first child builds to absent. *)
Lemma surviving_leaf_not_registered :
  satisfies_table (AndNotQueryNode 1 [term "a"; term "c"]) = true
  /\ snd (sample_create (AndNotQueryNode 1 [term "a"; term "c"]) []) = []
  /\ registrations sample_column sample_reader sample_lookup
       (term_leaves (AndNotQueryNode 1 [term "a"; term "c"]))
     = [(TermDocIterator 30 1%N, 1%N)].
Proof. repeat split. Qed.

Lemma and_not_stops_early_witness :
  sample_create
    (AndNotQueryNode 1
       [AndQueryNode 1 [term "a"; OrQueryNode 1 [term "a"; title "c"]];
        term "c"; NotQueryNode 1 [term "d"]])
    [(TermDocIterator 40 1%N, 1%N)]
  = (Ok None, [(TermDocIterator 40 1%N, 1%N)]).
Proof.
  apply (@and_not_stops_early unit nat sample_column sample_reader
           sample_lookup sample_opaque).
  reflexivity.
Defined.

(** Every tree in normal form whose root is neither a NOT nor an opaque
    leaf is one the factory can run on. *)
Lemma normal_form_executable n : forall negated,
  normal_form negated n = true ->
  is_opaque (GetType n) = false -> GetType n <> NOT ->
  executable n = true.
Proof.
  induction n as [w t c|[] w p|k w cs IH] using QueryNode_ind;
    intros negated Hn Ho Ht; try discriminate; try reflexivity.
  rewrite normal_form_multi in Hn.
  apply andb_true_iff in Hn as [Hl Hn]. apply andb_true_iff in Hl as [_ Hl].
  apply Nat.leb_le in Hl.
  assert (Hcs : forallb executable cs = true).
  { destruct cs as [|c others]; [reflexivity|].
    apply andb_true_iff in Hn as [Hc Hos].
    inversion IH as [|? ? IHc IHo]; subst.
    assert (step : forall first d,
               (forall negated, normal_form negated d = true ->
                  is_opaque (GetType d) = false -> GetType d <> NOT ->
                  executable d = true) ->
               item negated k first d = true -> executable d = true).
    { intros first d IHd Hd. unfold item in Hd.
      apply andb_true_iff in Hd as [Hp Hd].
      eapply IHd; [exact Hd| |];
        destruct k, (GetType d); simpl in Hp; try discriminate;
        try reflexivity. }
    simpl. rewrite (step true c IHc Hc). simpl.
    apply Forall_forallb. apply Forall_forallb in Hos.
    clear - Hos IHo step. induction Hos as [|d ds Hd _ IHds]; [constructor|].
    inversion IHo; subst. constructor; [now apply (step false) | auto]. }
  destruct k; simpl; try assumption.
  - rewrite Hcs. destruct cs; [simpl in Hl; lia | reflexivity].
  - now elim Ht.
Qed.

(** So is every tree that satisfies the table of section 3, has no opaque
    leaf and is not a NOT. *)
Lemma table_executable n :
  satisfies_table n = true -> contains_opaque n = false ->
  GetType n <> NOT -> executable n = true.
Proof.
  induction n as [w t c|k w p|k w cs IH] using QueryNode_ind;
    intros Hn Ho Ht; try discriminate; try reflexivity.
  simpl in Hn. apply andb_true_iff in Hn as [Hl Hn].
  apply Nat.leb_le in Hl. simpl in Ho.
  assert (Hcs : forallb executable cs = true).
  { clear Hl Ht. induction IH as [|c cs IHc _ IHcs]; [reflexivity|].
    simpl in Hn, Ho. apply andb_true_iff in Hn as [Hc Hn].
    apply andb_true_iff in Hc as [Hp Hc].
    apply orb_false_iff in Ho as [Hoc Ho].
    simpl. rewrite (IHcs Hn Ho), andb_true_r.
    apply IHc; try assumption.
    intros Ty. rewrite Ty in Hp. now destruct k. }
  destruct k; simpl; try assumption.
  - rewrite Hcs. destruct cs; [simpl in Hl; lia | reflexivity].
  - now elim Ht.
Qed.

(* ================================================================== *)
(** * Properties of the printer *)

Section PrinterProperties.

Variable show_weight : Weight -> string.
Variable OpaquePrintTree :
  OpaqueKind -> Weight -> string -> string -> bool -> string.

Local Abbreviation print_tree := (PrintTree show_weight OpaquePrintTree).

Lemma string_app_assoc (a b c : string) :
  ((a ++ b) ++ c)%string = (a ++ (b ++ c))%string.
Proof.
  induction a as [|ch a IH]; simpl; [reflexivity|]. now rewrite IH.
Qed.

Lemma at_index_app {A : Type} (pre : list A) (a : A) (rest : list A) :
  at_index (pre ++ a :: rest) (List.length pre) = Ok a.
Proof.
  unfold at_index. rewrite nth_error_app2 by lia.
  now rewrite Nat.sub_diag.
Qed.

Lemma back_snoc {A : Type} (init : list A) (last_child : A) :
  back (init ++ [last_child]) = Ok last_child.
Proof.
  unfold back. rewrite length_app. simpl.
  replace (List.length init + 1 - 1)%nat with (List.length init) by lia.
  apply at_index_app.
Qed.

(** The loop visits the children before the last one, from [i] on. *)
Lemma print_inner_from print (last_child : QueryNode) rest : forall pre,
  print_inner print (pre ++ rest ++ [last_child])
    (List.length (rest ++ [last_child])) (List.length pre)
  = print_lines (fun c => print c false) rest.
Proof.
  induction rest as [|c rest IH]; intros pre.
  - simpl. rewrite length_app. simpl.
    replace (List.length pre + 1 <? List.length pre + 1)%nat with false
      by (symmetry; apply Nat.ltb_ge; lia).
    reflexivity.
  - cbn [List.length app print_inner print_lines].
    replace (List.length pre + 1
             <? List.length (pre ++ c :: rest ++ [last_child]))%nat
      with true
      by (symmetry; apply Nat.ltb_lt; rewrite !length_app; simpl;
          rewrite length_app; simpl; lia).
    rewrite at_index_app. cbn [bind].
    destruct (print c false) as [line| |]; simpl; try reflexivity.
    specialize (IH (pre ++ [c])).
    rewrite <- app_assoc in IH. rewrite (length_app pre [c]) in IH.
    simpl in IH. now rewrite IH.
Qed.

Lemma print_children_none print :
  MultiPrintChildren print [] = OutOfRange.
Proof. reflexivity. Qed.

Lemma print_children_snoc print init last_child :
  MultiPrintChildren print (init ++ [last_child]) =
  (inner <- print_lines (fun c => print c false) init ;;
   line <- print last_child true ;;
   Ok (inner ++ line)%string).
Proof.
  unfold MultiPrintChildren.
  pose proof (print_inner_from print last_child init []) as H.
  cbn [app] in H. change (List.length (@nil QueryNode)) with 0%nat in H.
  now rewrite H, back_snoc.
Qed.

Lemma print_children_cons print c c' l :
  print_children print (c :: c' :: l) =
  (line <- print c false ;;
   rest <- print_children print (c' :: l) ;;
   Ok (line ++ rest)%string).
Proof. reflexivity. Qed.

Lemma print_children_last print init last_child :
  print_children print (init ++ [last_child]) =
  (inner <- print_lines (fun c => print c false) init ;;
   line <- print last_child true ;;
   Ok (inner ++ line)%string).
Proof.
  induction init as [|c init IH].
  - simpl. now destruct (print last_child true).
  - change ((c :: init) ++ [last_child]) with (c :: (init ++ [last_child])).
    cbn [print_children print_lines].
    destruct (init ++ [last_child]) as [|c' l] eqn:E;
      [now destruct init|].
    rewrite IH.
    destruct (print c false) as [line| |]; simpl; try reflexivity.
    destruct (print_lines _ init) as [inner| |]; simpl; try reflexivity.
    destruct (print last_child true) as [final| |]; simpl; try reflexivity.
    now rewrite string_app_assoc.
Qed.

Lemma print_children_body print cs :
  print_children print cs = MultiPrintChildren print cs.
Proof.
  destruct cs as [|c cs]; [reflexivity|].
  destruct (@exists_last _ (c :: cs)) as (init & last_child & ->);
    [discriminate|].
  now rewrite print_children_last, print_children_snoc.
Qed.

(** The recursion of [PrintTree] runs the body of the source on the
    children. *)
Lemma print_tree_multi k w cs prefix is_final :
  print_tree (MultiQueryNode k w cs) prefix is_final =
  (body <- MultiPrintChildren
             (fun c f => print_tree c (prefix ++ indent is_final)%string f) cs ;;
   Ok (MultiHeader show_weight k w cs prefix is_final ++ body)%string).
Proof.
  rewrite <- print_children_body. reflexivity.
Qed.

Lemma print_tree_ok n : forall prefix is_final,
  is_ok (print_tree n prefix is_final) = all_nonempty n.
Proof.
  induction n as [w t c|k w p|k w cs IH] using QueryNode_ind;
    intros prefix is_final; try reflexivity.
  rewrite print_tree_multi, <- print_children_body.
  set (next := (prefix ++ indent is_final)%string).
  cbn [all_nonempty].
  destruct cs as [|c cs]; [reflexivity|].
  cbn [is_empty negb andb].
  assert (H : forall l,
             Forall (fun n => forall prefix is_final,
                       is_ok (print_tree n prefix is_final) = all_nonempty n) l ->
             l <> [] ->
             is_ok (print_children (fun c f => print_tree c next f) l)
             = forallb all_nonempty l).
  { clear. induction l as [|c l IHl]; intros IH Hne; [congruence|].
    inversion IH as [|? ? IHc IHcs]; subst.
    destruct l as [|c' l].
    - simpl. now rewrite IHc, andb_true_r.
    - rewrite print_children_cons.
      change (forallb all_nonempty (c :: c' :: l))
        with (all_nonempty c && forallb all_nonempty (c' :: l)).
      rewrite <- (IHc next false), <- (IHl IHcs) by discriminate.
      destruct (print_tree c next false); cbn [bind is_ok andb];
        try reflexivity.
      now destruct (print_children _ (c' :: l)). }
  rewrite <- (H (c :: cs) IH) by discriminate.
  now destruct (print_children _ (c :: cs)).
Qed.

(** C10.  The body of [MultiQueryNode::PrintTree] reads [children_.back()]
    after the loop over the children before the last one.  Whatever the
    calls on the children do, on a node without children that read is out
    of range, and on a node with children every read is in range: the
    children before the last one are printed with the inner rune and the
    last one with the final rune.  So printing a tree is defined exactly
    when every composite node in it has at least one child. *)
Theorem print_tree_domain :
  (forall print, MultiPrintChildren print [] = OutOfRange)
  /\ (forall print init last_child,
        MultiPrintChildren print (init ++ [last_child]) =
        (inner <- print_lines (fun c => print c false) init ;;
         line <- print last_child true ;;
         Ok (inner ++ line)%string))
  /\ (forall k w cs prefix is_final,
        PrintTree show_weight OpaquePrintTree (MultiQueryNode k w cs)
          prefix is_final =
        (body <- MultiPrintChildren
                   (fun c f =>
                      PrintTree show_weight OpaquePrintTree c
                        (prefix ++ indent is_final)%string f) cs ;;
         Ok (MultiHeader show_weight k w cs prefix is_final ++ body)%string))
  /\ (forall k w cs prefix is_final,
        is_ok (PrintTree show_weight OpaquePrintTree (MultiQueryNode k w cs)
                 prefix is_final)
        = negb (is_empty cs) && forallb all_nonempty cs).
Proof.
  split; [exact print_children_none|].
  split; [exact print_children_snoc|].
  split; [exact print_tree_multi|].
  intros k w cs prefix is_final. apply print_tree_ok.
Qed.

End PrinterProperties.

Example print_tree_sample :
  PrintTree sample_weight (fun _ _ payload _ _ => payload)
    (AndNotQueryNode 1
       [AndQueryNode 1 [TermQueryNode (1 # 2) "a" "body";
                        TermQueryNode 1 "b" "body"];
        TermQueryNode 1 "c" "title"]) "" true
  = Ok ("└──AND_NOT (weight: 1/1) (children count: 2)" ++ newline ++
        "    ├──AND (weight: 1/1) (children count: 2)" ++ newline ++
        "    │   ├──TERM (weight: 1/2) (column: body) (term: a)" ++ newline ++
        "    │   └──TERM (weight: 1/1) (column: body) (term: b)" ++ newline ++
        "    └──TERM (weight: 1/1) (column: title) (term: c)" ++ newline)%string.
Proof. reflexivity. Qed.

Example print_tree_no_children :
  PrintTree sample_weight (fun _ _ payload _ _ => payload)
    (AndQueryNode 1 [TermQueryNode 1 "a" "body"; OrQueryNode 1 []]) "" true
  = OutOfRange.
Proof. reflexivity. Qed.

(* ================================================================== *)
(** * The scenarios of the specification (section 8) *)

Example scenario1 :
  normalize (AndQueryNode 1 [term "a"; NotQueryNode 1 [term "b"]])
  = Ok (AndNotQueryNode 1 [term "a"; term "b"]).
Proof. reflexivity. Qed.

Example scenario2 :
  normalize
    (AndQueryNode 1
       [term "a";
        AndQueryNode 1 [NotQueryNode 1 [term "b"]; NotQueryNode 1 [term "c"]]])
  = Ok (AndNotQueryNode 1 [term "a"; term "b"; term "c"]).
Proof. reflexivity. Qed.

Example scenario3 :
  normalize
    (AndQueryNode 1
       [term "a";
        OrQueryNode 1 [NotQueryNode 1 [term "b"]; NotQueryNode 1 [term "c"]]])
  = Ok (AndNotQueryNode 1 [term "a"; AndQueryNode 1 [term "b"; term "c"]]).
Proof. reflexivity. Qed.

Example scenario4 :
  normalize (OrQueryNode 1 [term "a"; NotQueryNode 1 [term "b"]])
  = UnrecoverableError UnsupportedDisjunction.
Proof. reflexivity. Qed.

Example scenario5 :
  normalize
    (AndQueryNode 1
       [term "a"; OrQueryNode 1 [NotQueryNode 1 [term "b"]; term "c"]])
  = UnrecoverableError UnsupportedDisjunction.
Proof. reflexivity. Qed.

Example scenario6 :
  normalize
    (AndQueryNode 1
       [AndQueryNode 1 [term "a"; term "b"];
        OrQueryNode 1 [term "c"; OrQueryNode 1 [term "d"; term "e"]]])
  = Ok (AndQueryNode 1
          [term "a"; term "b"; OrQueryNode 1 [term "c"; term "d"; term "e"]]).
Proof. reflexivity. Qed.

Example scenario7 :
  normalize
    (OrQueryNode 1
       [NotQueryNode 1 [term "a"];
        NotQueryNode 1 [OrQueryNode 1 [term "b"; term "c"]]])
  = Ok (NotQueryNode 1
          [AndQueryNode 1 [term "a"; OrQueryNode 1 [term "b"; term "c"]]])
  /\ fst (sample_create
            (NotQueryNode 1
               [AndQueryNode 1 [term "a"; OrQueryNode 1 [term "b"; term "c"]]])
            [])
     = UnrecoverableError InvalidNormalization.
Proof. split; reflexivity. Qed.

(* ================================================================== *)
(** * Which queries are accepted *)

Lemma inner_arity k cs t' :
  OptimizeInPlaceInner k cs = Ok t' ->
  k <> AndNotKind /\ (min_arity k <= List.length cs)%nat.
Proof.
  destruct k; simpl.
  - unfold AndOptimizeInPlaceInner.
    destruct (List.length cs <? 2)%nat eqn:E; [discriminate|].
    apply Nat.ltb_ge in E. intros _. split; [discriminate | exact E].
  - discriminate.
  - unfold OrOptimizeInPlaceInner.
    destruct (List.length cs <? 2)%nat eqn:E; [discriminate|].
    apply Nat.ltb_ge in E. intros _. split; [discriminate | exact E].
  - unfold NotOptimizeInPlaceInner.
    destruct cs; [discriminate|]. intros _.
    split; [discriminate | simpl; lia].
Qed.

Lemma normalize_arities t : forall t',
  normalize t = Ok t' -> input_arities t = true.
Proof.
  induction t as [w term_ col|k w p|k w cs IH] using QueryNode_ind;
    intros t' H; try reflexivity.
  rewrite normalize_multi in H. bind_inv H.
  destruct (inner_arity _ _ H) as [Hk Hl].
  pose proof (normalize_each_Forall2 _ Ha) as Hall.
  rewrite <- (Forall2_length Hall) in Hl.
  simpl. apply andb_true_iff. split.
  - destruct k; try congruence; now apply Nat.leb_le.
  - clear - IH Hall. induction Hall as [|c c' cs cs' Hc _ IHa];
      [reflexivity|].
    inversion IH as [|? ? IHc IHcs]; subst. simpl.
    rewrite (IHc _ Hc). now apply IHa.
Qed.

(** X1.  A query is accepted only if every AND and OR node of it has at
    least 2 children, every NOT node at least 1, and no node is an AND_NOT,
    at whatever depth. *)
Theorem accepted_arities t t' :
  normalize t = Ok t' -> input_arities t = true.
Proof. apply normalize_arities. Qed.

Lemma accepted_arities_witness :
  input_arities
    (AndQueryNode 3 [term "a"; NotQueryNode 2 [OrQueryNode 1 [term "b"; term "c"]]])
  = true.
Proof.
  apply (@accepted_arities
           (AndQueryNode 3
              [term "a"; NotQueryNode 2 [OrQueryNode 1 [term "b"; term "c"]]])
           (AndNotQueryNode 1 [term "a"; term "b"; term "c"])).
  reflexivity.
Defined.




(** ** The shape of the result *)

Lemma forallb_false_Exists {A : Type} (f : A -> bool) (l : list A) :
  forallb f l = false -> Exists (fun a => f a = false) l.
Proof.
  induction l as [|a l IH]; simpl; [discriminate|].
  destruct (f a) eqn:E; simpl; intros H.
  - apply Exists_cons_tl. now apply IH.
  - now apply Exists_cons_hd.
Qed.

Lemma forallb_shape (f : Shape -> bool) cs :
  forallb f (map shape_of cs) = forallb (fun c => f (shape_of c)) cs.
Proof.
  induction cs as [|c cs IH]; simpl; [reflexivity|]. now rewrite IH.
Qed.

Lemma shape_negative c : is_negative (shape_of c) = is_not c.
Proof.
  unfold shape_of, is_not. now destruct c as [? ? ?|[] ? ?|[] ? ?].
Qed.

Lemma shape_atom c : is_atom (shape_of c) = is_opaque (GetType c).
Proof.
  unfold shape_of. now destruct c as [? ? ?|[] ? ?|[] ? ?].
Qed.

Lemma shape_positive c :
  is_positive (shape_of c) = negb (is_not c) && negb (is_opaque (GetType c)).
Proof.
  unfold shape_of, is_not. now destruct c as [? ? ?|[] ? ?|[] ? ?].
Qed.

Lemma forallb_negative cs :
  forallb (fun c => is_negative (shape_of c)) cs = forallb is_not cs.
Proof.
  induction cs as [|c cs IH]; [reflexivity|].
  simpl. now rewrite IH, shape_negative.
Qed.

Lemma not_loop_total cs : forall acc,
  forallb (fun c => is_positive (shape_of c)) cs = true ->
  exists l, for_each not_step cs acc = Ok l.
Proof.
  induction cs as [|c cs IH]; intros acc H.
  - now exists acc.
  - simpl in H. apply andb_true_iff in H as [Hc H].
    cbn [for_each]. unfold not_step at 1.
    destruct c as [? ? ?|[] ? ?|[] ? ?]; try discriminate; simpl;
      now apply IH.
Qed.

Lemma and_share_empty c a n :
  normal_form false c = true -> and_share c = Ok (a, n) ->
  is_empty a = is_not c.
Proof.
  intros Hn.
  destruct c as [? ? ?|[] ? ?|[] w cs]; simpl; try discriminate.
  - intros H. now injection H as <- <-.
  - intros H. injection H as <- <-.
    apply normal_and in Hn as [Hl _]. destruct cs; [simpl in Hl; lia|].
    reflexivity.
  - apply normal_and_not in Hn as (first & others & -> & _ & Hf & _).
    unfold item in Hf. apply andb_true_iff in Hf as [_ Hf]. simpl in Hf.
    destruct first as [? ? ?|[] ? ?|[] w1 cs1]; intros H;
      injection H as <- <-; try reflexivity.
    apply normal_and in Hf as [Hl _]. destruct cs1; [simpl in Hl; lia|].
    reflexivity.
  - intros H. now injection H as <- <-.
  - intros H. now injection H as <- <-.
Qed.

Lemma and_partition_empty cs : forall al nl,
  Forall (fun c => normal_form false c = true) cs ->
  and_partition cs = Ok (al, nl) ->
  is_empty al = forallb is_not cs.
Proof.
  induction cs as [|c cs IH]; simpl; intros al nl Hn H.
  - now injection H as <- <-.
  - inversion Hn as [|? ? Hc Hcs]; subst.
    bind_inv H. bind_inv H. injection H as <- <-.
    destruct a as [a n], a0 as [a' n']. simpl.
    rewrite <- (and_share_empty _ Hc Ha), <- (IH _ _ Hcs Ha0).
    now destruct a.
Qed.

Lemma and_build_shape al nl :
  shape_of (and_build al nl)
  = if is_empty al then NegativeShape else PositiveShape.
Proof.
  unfold and_build. destruct al as [|a al]; [reflexivity|].
  now destruct nl.
Qed.

(** Each rule on normalized children: whether it throws, and the shape of
    what it returns. *)
Lemma inner_shape k cs :
  Forall (fun c => normal_form false c = true) cs ->
  match combine k (map shape_of cs) with
  | Some p => exists t', OptimizeInPlaceInner k cs = Ok t' /\ shape_of t' = p
  | None => is_ok (OptimizeInPlaceInner k cs) = false
  end.
Proof.
  intros Hn. destruct k; cbn [combine OptimizeInPlaceInner].
  - (* AND *)
    rewrite length_map, forallb_shape. unfold AndOptimizeInPlaceInner.
    destruct (List.length cs <? 2)%nat eqn:El.
    + apply Nat.ltb_lt in El.
      replace (2 <=? List.length cs)%nat with false
        by (symmetry; apply Nat.leb_gt; lia).
      reflexivity.
    + apply Nat.ltb_ge in El.
      replace (2 <=? List.length cs)%nat with true
        by (symmetry; apply Nat.leb_le; lia).
      simpl andb.
      destruct (forallb (fun c => negb (is_atom (shape_of c))) cs) eqn:Eo.
      * assert (Ho : Forall (fun c => is_opaque (GetType c) = false) cs).
        { apply Forall_forall. intros c Hc.
          rewrite forallb_forall in Eo. specialize (Eo c Hc).
          rewrite shape_atom in Eo. now apply negb_true_iff in Eo. }
        pose proof (and_partition_ok Hn Ho) as Hok.
        rewrite and_loop_start.
        destruct (and_partition cs) as [[al nl]| |] eqn:Ep; try discriminate.
        simpl. eexists. split; [reflexivity|].
        rewrite and_build_shape, (and_partition_empty Hn Ep), forallb_shape.
        now rewrite forallb_negative.
      * apply bind_rejects.
        apply forallb_false_Exists in Eo.
        apply for_each_rejects.
        eapply Exists_impl; [|exact Eo]. intros c Hc [al nl].
        cbv beta in Hc. rewrite shape_atom in Hc.
        apply negb_false_iff in Hc. unfold and_step.
        revert Hc. now destruct (GetType c).
  - reflexivity.
  - (* OR *)
    rewrite length_map, !forallb_shape. unfold OrOptimizeInPlaceInner.
    destruct (List.length cs <? 2)%nat eqn:El.
    + apply Nat.ltb_lt in El.
      replace (2 <=? List.length cs)%nat with false
        by (symmetry; apply Nat.leb_gt; lia).
      reflexivity.
    + apply Nat.ltb_ge in El.
      replace (2 <=? List.length cs)%nat with true
        by (symmetry; apply Nat.leb_le; lia).
      simpl andb.
      destruct (forallb (fun c => negb (is_atom (shape_of c))) cs) eqn:Eo.
      * assert (Ho : Forall (fun c => is_opaque (GetType c) = false) cs).
        { apply Forall_forall. intros c Hc.
          rewrite forallb_forall in Eo. specialize (Eo c Hc).
          rewrite shape_atom in Eo. now apply negb_true_iff in Eo. }
        destruct (or_loop_ok [] [] Hn Ho) as (ol & nl & -> & E1 & E2).
        simpl in E1, E2. simpl.
        assert (Epos : forallb (fun c => is_positive (shape_of c)) cs
                       = forallb (fun c => negb (is_not c)) cs).
        { clear - Ho. induction Ho as [|c cs Hc _ IH]; [reflexivity|].
          simpl. now rewrite IH, shape_positive, Hc, andb_true_r. }
        rewrite Epos, forallb_negative, <- E1, <- E2.
        destruct ol as [|o ol]; simpl.
        -- eexists. split; reflexivity.
        -- destruct nl as [|n nl]; simpl; [|reflexivity].
           eexists. split; reflexivity.
      * apply bind_rejects.
        apply forallb_false_Exists in Eo.
        apply for_each_rejects.
        eapply Exists_impl; [|exact Eo]. intros c Hc [ol nl].
        cbv beta in Hc. rewrite shape_atom in Hc.
        apply negb_false_iff in Hc. unfold or_step.
        revert Hc. now destruct (GetType c).
  - (* NOT *)
    rewrite forallb_shape. unfold NotOptimizeInPlaceInner.
    destruct cs as [|c cs]; [reflexivity|].
    change (is_empty (map shape_of (c :: cs))) with false.
    change (is_empty (c :: cs)) with false. cbv iota. cbn [negb andb].
    destruct (forallb (fun c0 => is_positive (shape_of c0)) (c :: cs)) eqn:Ep.
    + destruct (not_loop_total (c :: cs) [] Ep) as (l & ->).
      simpl. eexists. split; reflexivity.
    + apply bind_rejects.
      apply forallb_false_Exists in Ep.
      apply for_each_rejects.
      eapply Exists_impl; [|exact Ep]. intros d Hd l.
      cbv beta in Hd. unfold not_step.
      revert Hd. unfold shape_of.
      now destruct d as [? ? ?|[] ? ?|[] ? ?].
Qed.

Lemma each_polarity cs :
  Forall (fun c =>
            match polarity c with
            | Some p => exists c', normalize c = Ok c' /\ shape_of c' = p
            | None => is_ok (normalize c) = false
            end) cs ->
  match all_some (map polarity cs) with
  | Some shapes =>
      exists cs', normalize_each cs = Ok cs' /\ map shape_of cs' = shapes
  | None => is_ok (normalize_each cs) = false
  end.
Proof.
  induction 1 as [|c cs Hc _ IH]; simpl.
  - now exists [].
  - destruct (polarity c) as [p|].
    + destruct Hc as (c' & -> & Hp). simpl.
      destruct (all_some (map polarity cs)) as [shapes|].
      * destruct IH as (cs' & -> & Hs). simpl.
        exists (c' :: cs'). split; [reflexivity|]. simpl. now rewrite Hp, Hs.
      * now destruct (normalize_each cs).
    + now destruct (normalize c).
Qed.

Lemma normalize_polarity t :
  match polarity t with
  | Some p => exists t', normalize t = Ok t' /\ shape_of t' = p
  | None => is_ok (normalize t) = false
  end.
Proof.
  induction t as [w term_ col|k w p|k w cs IH] using QueryNode_ind.
  - eexists. split; reflexivity.
  - eexists. split; [reflexivity|]. now destruct k.
  - pose proof (each_polarity IH) as He.
    rewrite normalize_multi. simpl polarity.
    destruct (all_some (map polarity cs)) as [shapes|].
    + destruct He as (cs' & E & <-). rewrite E. simpl bind.
      apply inner_shape. eapply normalize_each_normal; eassumption.
    + now destruct (normalize_each cs).
Qed.

(** X3.  Whether a query is accepted can be read off the query: [polarity]
    is defined exactly on the accepted queries.  A NOT needs a child and
    only children that do not normalize to a NOT; an AND needs 2 children;
    an OR needs 2 children that all normalize to a NOT or none of which
    does; an opaque leaf below a composite node and an AND_NOT are
    rejected.  The result is a NOT exactly when the polarity is negative:
    below a NOT, an AND of negative children only, or an OR of negative
    children only. *)
Theorem acceptance t :
  match polarity t with
  | Some p => exists t', normalize t = Ok t' /\ shape_of t' = p
  | None => is_ok (normalize t) = false
  end.
Proof. apply normalize_polarity. Qed.

Example acceptance_examples :
  polarity (AndQueryNode 1 [term "a"; OrQueryNode 1 [NotQueryNode 1 [term "b"];
                                                     NotQueryNode 1 [term "c"]]])
  = Some PositiveShape
  /\ polarity (OrQueryNode 1 [NotQueryNode 1 [term "a"];
                             AndQueryNode 1 [NotQueryNode 1 [term "b"];
                                             NotQueryNode 1 [term "c"]]])
     = Some NegativeShape
  /\ polarity (AndQueryNode 1 [term "a"; OrQueryNode 1 [NotQueryNode 1 [term "b"];
                                                        term "c"]])
     = None
  /\ polarity (NotQueryNode 1 [AndQueryNode 1 [NotQueryNode 1 [term "b"];
                                               NotQueryNode 1 [term "c"]]])
     = None.
Proof. repeat split. Qed.

(* ================================================================== *)
(** * The leaves of a query *)

Lemma leaves_of_children c :
  (GetType c = AND \/ GetType c = OR \/ GetType c = NOT
   \/ GetType c = AND_NOT) ->
  flat_map leaf_nodes (children_of c) = leaf_nodes c.
Proof.
  destruct c as [? ? ?|[] ? ?|k w cs]; simpl; try reflexivity;
    intros [H|[H|[H|H]]]; discriminate.
Qed.

Lemma not_loop_leaves cs : forall acc l,
  for_each not_step cs acc = Ok l ->
  flat_map leaf_nodes l = flat_map leaf_nodes acc ++ flat_map leaf_nodes cs.
Proof.
  induction cs as [|c cs IH]; simpl; intros acc l H.
  - injection H as <-. now rewrite app_nil_r.
  - bind_inv H. rewrite (IH _ _ H). clear IH H.
    unfold not_step in Ha.
    destruct (GetType c) eqn:Ty; try discriminate; injection Ha as <-;
      rewrite flat_map_app, <- app_assoc; f_equal; f_equal; simpl;
      rewrite ?app_nil_r; try reflexivity.
    rewrite leaves_of_children; auto.
Qed.

Lemma and_share_leaves c a n :
  and_share c = Ok (a, n) ->
  flat_map leaf_nodes a ++ flat_map leaf_nodes n = leaf_nodes c.
Proof.
  destruct c as [? ? ?|[] ? ?|[] w cs]; simpl; try discriminate;
    try (intros H; injection H as <- <-; simpl; now rewrite ?app_nil_r).
  destruct cs as [|first others]; [discriminate|].
  destruct first as [? ? ?|[] ? ?|[] w1 cs1]; intros H;
    injection H as <- <-; simpl; now rewrite ?app_nil_r.
Qed.

Lemma and_partition_leaves cs : forall al nl,
  and_partition cs = Ok (al, nl) ->
  Permutation (flat_map leaf_nodes al ++ flat_map leaf_nodes nl)
              (flat_map leaf_nodes cs).
Proof.
  induction cs as [|c cs IH]; simpl; intros al nl H.
  - injection H as <- <-. constructor.
  - bind_inv H. bind_inv H. injection H as <- <-.
    destruct a as [a n], a0 as [a' n']. simpl.
    rewrite <- (and_share_leaves _ Ha), !flat_map_app.
    specialize (IH _ _ Ha0).
    rewrite <- !app_assoc. apply Permutation_app_head.
    etransitivity; [|apply Permutation_app_head; exact IH].
    rewrite !app_assoc. apply Permutation_app_tail.
    apply Permutation_app_comm.
Qed.

Lemma and_build_leaves al nl :
  leaf_nodes (and_build al nl)
  = flat_map leaf_nodes al ++ flat_map leaf_nodes nl.
Proof.
  unfold and_build. destruct al as [|a al]; [reflexivity|].
  destruct nl as [|n nl]; simpl is_empty; cbv iota.
  - now rewrite app_nil_r.
  - destruct al as [|a' al]; simpl; now rewrite ?app_nil_r.
Qed.

Lemma or_loop_leaves cs : forall ol nl ol' nl',
  for_each or_step cs (ol, nl) = Ok (ol', nl') ->
  Forall (fun c => GetType c = NOT) nl ->
  Forall (fun c => GetType c = NOT) nl'
  /\ Permutation (flat_map leaf_nodes ol' ++ flat_map leaf_nodes nl')
       ((flat_map leaf_nodes ol ++ flat_map leaf_nodes nl)
        ++ flat_map leaf_nodes cs).
Proof.
  induction cs as [|c cs IH]; simpl; intros ol nl ol' nl' H Hn.
  - injection H as <- <-. split; [assumption|]. now rewrite app_nil_r.
  - bind_inv H. destruct a as [ol1 nl1].
    assert (Hstep : Forall (fun c => GetType c = NOT) nl1
              /\ Permutation
                   (flat_map leaf_nodes ol1 ++ flat_map leaf_nodes nl1)
                   ((flat_map leaf_nodes ol ++ flat_map leaf_nodes nl)
                    ++ leaf_nodes c)).
    { unfold or_step in Ha.
      destruct (GetType c) eqn:Ty; try discriminate; injection Ha as <- <-;
        rewrite !flat_map_app; simpl; rewrite ?app_nil_r;
        rewrite ?leaves_of_children by auto;
        try (split; [assumption|];
             rewrite <- !app_assoc; apply Permutation_app_head;
             apply Permutation_app_comm).
      split; [apply Forall_app; split; [assumption | now repeat constructor]|].
      now rewrite app_assoc. }
    destruct Hstep as [Hn1 Hp1].
    destruct (IH _ _ _ _ H Hn1) as [Hn' Hp]. split; [assumption|].
    etransitivity; [exact Hp|].
    rewrite (app_assoc (flat_map leaf_nodes ol ++ flat_map leaf_nodes nl)
               (leaf_nodes c) (flat_map leaf_nodes cs)).
    now apply Permutation_app_tail.
Qed.

Lemma or_collapse_leaves nl :
  Forall (fun c => GetType c = NOT) nl ->
  flat_map leaf_nodes (map or_collapse nl) = flat_map leaf_nodes nl.
Proof.
  induction 1 as [|c nl Hc _ IH]; simpl; [reflexivity|].
  rewrite IH. f_equal.
  destruct c as [? ? ?|[] ? ?|[] w cs]; try discriminate.
  unfold or_collapse. simpl.
  destruct cs as [|g [|g' gs]]; simpl; now rewrite ?app_nil_r.
Qed.

Lemma inner_leaves k cs t' :
  OptimizeInPlaceInner k cs = Ok t' ->
  Permutation (leaf_nodes t') (flat_map leaf_nodes cs).
Proof.
  destruct k; simpl.
  - unfold AndOptimizeInPlaceInner.
    destruct (List.length cs <? 2)%nat; [discriminate|].
    rewrite and_loop_start. intros H. bind_inv H. injection H as <-.
    destruct a as [al nl]. simpl. rewrite and_build_leaves.
    now apply and_partition_leaves.
  - discriminate.
  - unfold OrOptimizeInPlaceInner.
    destruct (List.length cs <? 2)%nat; [discriminate|].
    intros H. bind_inv H. destruct a as [ol nl].
    apply or_loop_leaves in Ha; [|constructor].
    destruct Ha as [Hn Hp]. simpl in Hp.
    destruct ol as [|o ol]; simpl in H.
    + injection H as <-. simpl. rewrite app_nil_r.
      now rewrite or_collapse_leaves.
    + destruct nl as [|n nl]; [|discriminate]. injection H as <-.
      simpl in *. now rewrite app_nil_r in Hp.
  - unfold NotOptimizeInPlaceInner.
    destruct (is_empty cs); [discriminate|].
    intros H. bind_inv H. injection H as <-.
    apply not_loop_leaves in Ha. simpl in *. now rewrite Ha.
Qed.

Lemma each_leaves cs cs' :
  Forall2 (fun c c' => Permutation (leaf_nodes c') (leaf_nodes c)) cs cs' ->
  Permutation (flat_map leaf_nodes cs') (flat_map leaf_nodes cs).
Proof.
  induction 1 as [|c c' cs cs' Hc _ IH]; simpl; [constructor|].
  now apply Permutation_app.
Qed.

Lemma normalize_leaves t : forall t',
  normalize t = Ok t' -> Permutation (leaf_nodes t') (leaf_nodes t).
Proof.
  induction t as [w term_ col|k w p|k w cs IH] using QueryNode_ind;
    intros t' H.
  - simpl in H. now injection H as <-.
  - simpl in H. now injection H as <-.
  - rewrite normalize_multi in H. bind_inv H.
    etransitivity; [exact (inner_leaves _ _ H)|].
    simpl. apply each_leaves.
    apply normalize_each_Forall2 in Ha. clear H.
    induction Ha as [|c c' cs cs' Hc _ IHa]; [constructor|].
    inversion IH; subst. constructor; [now apply H1 | now apply IHa].
Qed.

(** X4.  Normalization moves the leaves of a query and does nothing else
    to them: the leaves of the returned tree, each with its weight, term
    and column, are those of the input, up to their order; none is
    dropped, duplicated or changed. *)
Theorem normalize_keeps_leaves t t' :
  normalize t = Ok t' -> Permutation (leaf_nodes t') (leaf_nodes t).
Proof. apply normalize_leaves. Qed.

Lemma normalize_keeps_leaves_witness :
  Permutation
    [term "b"; TermQueryNode (7 # 2) "a" "title"; term "c"]
    [TermQueryNode (7 # 2) "a" "title"; term "b"; term "c"].
Proof.
  apply (@normalize_keeps_leaves
           (AndQueryNode 1
              [NotQueryNode 1 [TermQueryNode (7 # 2) "a" "title"];
               term "b"; NotQueryNode 5 [term "c"]])
           (AndNotQueryNode 1
              [term "b"; TermQueryNode (7 # 2) "a" "title"; term "c"])).
  reflexivity.
Defined.

(* ================================================================== *)
(** * Queries without negation *)

Lemma negation_free_type c :
  negation_free c = true ->
  GetType c = TERM \/ GetType c = AND \/ GetType c = OR.
Proof.
  destruct c as [? ? ?|? ? ?|[] ? ?]; simpl; try discriminate; auto.
Qed.

Lemma negation_free_children c :
  negation_free c = true -> GetType c <> TERM ->
  (2 <= List.length (children_of c))%nat
  /\ forallb negation_free (children_of c) = true.
Proof.
  destruct c as [? ? ?|? ? ?|k w cs];
    [intros _ H; now elim H | discriminate |].
  intros H _.
  assert (H' : (2 <=? List.length cs)%nat && forallb negation_free cs = true)
    by (destruct k; try discriminate; exact H).
  apply andb_true_iff in H' as [Hl Hn]. apply Nat.leb_le in Hl. now split.
Qed.

(** What the list taken from negation-free children looks like. *)
Lemma absorb_all k cs :
  forallb negation_free cs = true ->
  forallb negation_free (flat_map (absorb k) cs) = true
  /\ flat_map leaf_nodes (flat_map (absorb k) cs) = flat_map leaf_nodes cs
  /\ (List.length cs <= List.length (flat_map (absorb k) cs))%nat.
Proof.
  induction cs as [|c cs IH]; simpl; intros H; [repeat split; lia|].
  apply andb_true_iff in H as [Hc H]. destruct (IH H) as (I1 & I2 & I3).
  rewrite forallb_app, flat_map_app, length_app, I1, I2. clear IH.
  assert (Habs : absorb k c = if type_eqb (GetType c) (MultiType k)
                              then children_of c else [c]) by reflexivity.
  rewrite Habs. clear Habs.
  destruct (type_eqb (GetType c) (MultiType k)) eqn:E.
  - assert (Ty : GetType c <> TERM)
      by (intros Ty; rewrite Ty in E; now destruct k).
    destruct (negation_free_children _ Hc Ty) as [Hl Hn].
    rewrite Hn, leaves_of_children.
    + repeat split; lia.
    + destruct (negation_free_type _ Hc) as [T|[T|T]]; auto; congruence.
  - simpl. rewrite Hc, app_nil_r. repeat split; lia.
Qed.

Lemma and_loop_absorbs cs : forall al nl,
  forallb negation_free cs = true ->
  for_each and_step cs (al, nl)
  = Ok (al ++ flat_map (absorb AndKind) cs, nl).
Proof.
  induction cs as [|c cs IH]; simpl; intros al nl H.
  - now rewrite app_nil_r.
  - apply andb_true_iff in H as [Hc H].
    assert (Hs : and_step (al, nl) c = Ok (al ++ absorb AndKind c, nl)).
    { unfold and_step, absorb.
      destruct (negation_free_type _ Hc) as [T|[T|T]]; now rewrite T. }
    unfold and_step in Hs. rewrite Hs. simpl. rewrite (IH _ _ H).
    now rewrite app_assoc.
Qed.

Lemma or_loop_absorbs cs : forall ol nl,
  forallb negation_free cs = true ->
  for_each or_step cs (ol, nl)
  = Ok (ol ++ flat_map (absorb OrKind) cs, nl).
Proof.
  induction cs as [|c cs IH]; simpl; intros ol nl H.
  - now rewrite app_nil_r.
  - apply andb_true_iff in H as [Hc H].
    assert (Hs : or_step (ol, nl) c = Ok (ol ++ absorb OrKind c, nl)).
    { unfold or_step, absorb.
      destruct (negation_free_type _ Hc) as [T|[T|T]]; now rewrite T. }
    unfold or_step in Hs. rewrite Hs. simpl. rewrite (IH _ _ H).
    now rewrite app_assoc.
Qed.

(** The AND and the OR rule on negation-free children: the node with the
    children of its own kind flattened into it, in order. *)
Lemma inner_absorbs k cs :
  (k = AndKind \/ k = OrKind) ->
  (2 <= List.length cs)%nat ->
  forallb negation_free cs = true ->
  OptimizeInPlaceInner k cs
  = Ok (MultiQueryNode k fresh_weight (flat_map (absorb k) cs)).
Proof.
  intros Hk Hl Hn.
  destruct (absorb_all k cs Hn) as (_ & _ & Hlen).
  assert (Hne : is_empty (flat_map (absorb k) cs) = false)
    by (destruct (flat_map (absorb k) cs); [simpl in Hlen; lia | reflexivity]).
  destruct Hk as [-> | ->]; simpl.
  - unfold AndOptimizeInPlaceInner.
    replace (List.length cs <? 2)%nat with false
      by (symmetry; apply Nat.ltb_ge; exact Hl).
    rewrite and_loop_absorbs by assumption. simpl. unfold and_build.
    now rewrite Hne.
  - unfold OrOptimizeInPlaceInner.
    replace (List.length cs <? 2)%nat with false
      by (symmetry; apply Nat.ltb_ge; exact Hl).
    rewrite or_loop_absorbs by assumption. simpl. now rewrite Hne.
Qed.

Lemma negation_free_normalize t :
  negation_free t = true ->
  exists t', normalize t = Ok t'
             /\ leaf_nodes t' = leaf_nodes t
             /\ negation_free t' = true.
Proof.
  induction t as [w term_ col|k w p|k w cs IH] using QueryNode_ind;
    intros H; try discriminate.
  - eexists. repeat split.
  - assert (Hk : k = AndKind \/ k = OrKind)
      by (destruct k; try discriminate; auto).
    assert (H' : (2 <=? List.length cs)%nat && forallb negation_free cs = true)
      by (destruct Hk as [-> | ->]; exact H).
    clear H. apply andb_true_iff in H' as [Hl Hn]. apply Nat.leb_le in Hl.
    assert (Heach : exists cs',
               normalize_each cs = Ok cs'
               /\ flat_map leaf_nodes cs' = flat_map leaf_nodes cs
               /\ forallb negation_free cs' = true
               /\ List.length cs' = List.length cs).
    { clear Hl Hk. induction IH as [|c cs IHc _ IHcs].
      - exists []. repeat split.
      - simpl in Hn. apply andb_true_iff in Hn as [Hc Hn].
        destruct (IHc Hc) as (c' & E1 & E2 & E3).
        destruct (IHcs Hn) as (cs' & F1 & F2 & F3 & F4).
        exists (c' :: cs'). simpl. rewrite E1, F1, E2, F2, E3, F3, F4.
        repeat split. }
    destruct Heach as (cs' & E & El & En & Elen).
    rewrite normalize_multi, E. simpl bind.
    rewrite inner_absorbs by (auto; lia).
    destruct (absorb_all k cs' En) as (A1 & A2 & A3).
    eexists. split; [reflexivity|]. split.
    + simpl. now rewrite A2.
    + assert (Hl' : (2 <=? List.length (flat_map (absorb k) cs'))%nat = true)
        by (apply Nat.leb_le; lia).
      destruct Hk as [-> | ->]; cbn [negation_free]; now rewrite Hl', A1.
Qed.

Lemma negation_free_settled n :
  normal_form false n = true -> negation_free n = true ->
  settled n = true.
Proof.
  unfold settled.
  induction n as [w term_ col|k w p|k w cs IH] using QueryNode_ind;
    intros Hn Hf; try reflexivity; try discriminate.
  assert (Hk : k = AndKind \/ k = OrKind)
    by (destruct k; try discriminate; auto).
  assert (H' : (2 <=? List.length cs)%nat && forallb negation_free cs = true)
    by (destruct Hk as [-> | ->]; exact Hf).
  apply andb_true_iff in H' as [_ Hfc].
  rewrite normal_form_plain in Hn by (destruct Hk; subst; discriminate).
  apply andb_true_iff in Hn as [_ Hi].
  assert (Hall : existsb (contains AND_NOT) cs = false
                 /\ existsb (nests AND AND) cs = false
                 /\ (k = AndKind ->
                     existsb (fun c => type_eqb (GetType c) AND) cs = false)).
  { clear Hf. induction IH as [|c cs IHc _ IHcs]; [repeat split|].
    simpl in Hfc, Hi. apply andb_true_iff in Hfc as [Hc Hfc].
    apply andb_true_iff in Hi as [Hic Hi].
    destruct (IHcs Hi Hfc) as (I1 & I2 & I3).
    unfold item in Hic. apply andb_true_iff in Hic as [Hp Hnc].
    assert (Hneg : child_negated false k false = false)
      by (destruct Hk; subst; reflexivity).
    rewrite Hneg in Hnc. specialize (IHc Hnc Hc).
    apply andb_true_iff in IHc as [J1 J2].
    apply negb_true_iff in J1, J2. simpl. rewrite J1, J2, I1, I2.
    repeat split. intros ->. rewrite (I3 eq_refl), orb_false_r.
    destruct (GetType c); simpl in Hp; try discriminate; reflexivity. }
  destruct Hall as (H1 & H2 & H3). simpl contains. simpl nests.
  rewrite H1, H2, orb_false_r.
  destruct Hk as [-> | ->]; simpl.
  - now rewrite (H3 eq_refl).
  - reflexivity.
Qed.

(** X5.  A query without negation (TERM leaves below AND and OR nodes of
    at least 2 children each) is always accepted.  The result is again
    without negation, has the same leaves in the same order, and is
    returned unchanged by a second run. *)
Theorem negation_free_accepted t :
  negation_free t = true ->
  exists t', normalize t = Ok t'
             /\ negation_free t' = true
             /\ leaf_nodes t' = leaf_nodes t
             /\ normalize t' = Ok t'.
Proof.
  intros H. destruct (negation_free_normalize t H) as (t' & E & El & En).
  exists t'. repeat split; try assumption.
  apply settled_fixed with (negated := false).
  - eapply normalize_normal; eassumption.
  - apply negation_free_settled; [|assumption].
    eapply normalize_normal; eassumption.
Qed.

Lemma negation_free_accepted_witness :
  exists t',
    normalize
      (AndQueryNode 2
         [AndQueryNode 3 [term "a"; term "b"];
          OrQueryNode 1 [term "c"; OrQueryNode 4 [term "d"; term "e"]]])
    = Ok t'
    /\ negation_free t' = true
    /\ leaf_nodes t' = [term "a"; term "b"; term "c"; term "d"; term "e"]
    /\ normalize t' = Ok t'.
Proof.
  apply (@negation_free_accepted
           (AndQueryNode 2
              [AndQueryNode 3 [term "a"; term "b"];
               OrQueryNode 1 [term "c"; OrQueryNode 4 [term "d"; term "e"]]])).
  reflexivity.
Defined.

(* ================================================================== *)
(** * Nodes with negated children only *)

Lemma is_not_share c :
  is_not c = true -> and_share c = Ok ([], children_of c).
Proof.
  now destruct c as [? ? ?|[] ? ?|[] w cs].
Qed.

Lemma and_partition_nots cs :
  forallb is_not cs = true ->
  and_partition cs = Ok ([], flat_map children_of cs).
Proof.
  induction cs as [|c cs IH]; simpl; intros H; [reflexivity|].
  apply andb_true_iff in H as [Hc H].
  now rewrite (is_not_share _ Hc), (IH H).
Qed.

(** X6.  An AND node of at least 2 children that are all NOT nodes is
    replaced by one fresh NOT node that holds the children of all of them,
    in order: the conjunction of negations stays a list of subtrahends. *)
Theorem and_of_nots children_ :
  (2 <= List.length children_)%nat ->
  forallb is_not children_ = true ->
  AndOptimizeInPlaceInner children_
  = Ok (NotQueryNode fresh_weight (flat_map children_of children_)).
Proof.
  intros Hl Hn. unfold AndOptimizeInPlaceInner.
  replace (List.length children_ <? 2)%nat with false
    by (symmetry; apply Nat.ltb_ge; exact Hl).
  now rewrite and_loop_start, and_partition_nots.
Qed.

Lemma and_of_nots_witness :
  AndOptimizeInPlaceInner
    [NotQueryNode 1 [term "a"; term "b"]; NotQueryNode 1 [term "c"]]
  = Ok (NotQueryNode 1 [term "a"; term "b"; term "c"]).
Proof.
  apply (@and_of_nots
           [NotQueryNode 1 [term "a"; term "b"]; NotQueryNode 1 [term "c"]]).
  - simpl. lia.
  - reflexivity.
Defined.

Lemma or_loop_nots cs : forall ol nl,
  forallb is_not cs = true ->
  for_each or_step cs (ol, nl) = Ok (ol, nl ++ cs).
Proof.
  induction cs as [|c cs IH]; simpl; intros ol nl H.
  - now rewrite app_nil_r.
  - apply andb_true_iff in H as [Hc H].
    assert (Hs : or_step (ol, nl) c = Ok (ol, nl ++ [c]))
      by (now destruct c as [? ? ?|[] ? ?|[] w cs0]).
    unfold or_step in Hs. rewrite Hs. simpl. rewrite (IH _ _ H).
    now rewrite <- app_assoc.
Qed.

(** X7.  An OR node of at least 2 children that are all NOT nodes is
    replaced by a fresh NOT of one fresh AND (De Morgan).  The AND has one
    child for each NOT, in order: the child of a NOT with exactly one
    child, and a fresh OR of the children of any other NOT. *)
Theorem or_of_nots children_ :
  (2 <= List.length children_)%nat ->
  forallb is_not children_ = true ->
  OrOptimizeInPlaceInner children_
  = Ok (NotQueryNode fresh_weight
          [AndQueryNode fresh_weight (map or_collapse children_)]).
Proof.
  intros Hl Hn. unfold OrOptimizeInPlaceInner.
  replace (List.length children_ <? 2)%nat with false
    by (symmetry; apply Nat.ltb_ge; exact Hl).
  now rewrite or_loop_nots.
Qed.

Lemma or_of_nots_witness :
  OrOptimizeInPlaceInner
    [NotQueryNode 1 [term "a"; term "b"]; NotQueryNode 1 [term "c"]]
  = Ok (NotQueryNode 1
          [AndQueryNode 1 [OrQueryNode 1 [term "a"; term "b"]; term "c"]]).
Proof.
  apply (@or_of_nots
           [NotQueryNode 1 [term "a"; term "b"]; NotQueryNode 1 [term "c"]]).
  - simpl. lia.
  - reflexivity.
Defined.

(* ================================================================== *)
(** * The iterator tree and the scorer *)

Section FactoryInvariants.

Variables ColumnIndexReader PostingIterator : Type.
Variable GetColumnIdByName : string -> ColumnID.
Variable GetColumnIndexReader : ColumnID -> option ColumnIndexReader.
Variable Lookup : ColumnIndexReader -> string -> option PostingIterator.
Variable OpaqueCreateSearch :
  OpaqueKind -> Weight -> string
  -> Build PostingIterator (option (DocIterator PostingIterator)).

Local Abbreviation create :=
  (CreateSearch GetColumnIdByName GetColumnIndexReader Lookup
     OpaqueCreateSearch).
Local Abbreviation collect_all :=
  (collect GetColumnIdByName GetColumnIndexReader Lookup OpaqueCreateSearch).

Lemma collect_outcome l :
  Forall (fun c => forall s, outcome_ok s (create c s)) l ->
  forall acc s, collected_ok acc s (collect_all l acc s).
Proof.
  induction 1 as [|c l Hc _ IH]; intros acc s.
  - exists []. simpl. now rewrite !app_nil_r.
  - cbn [collect]. unfold and_then.
    specialize (Hc s). unfold outcome_ok in Hc.
    destruct (create c s) as [[r| |] s1]; simpl in Hc.
    + destruct Hc as [-> Hb].
      specialize (IH (keep acc r) (s ++ registered r)).
      unfold collected_ok in *.
      destruct (collect_all l (keep acc r) (s ++ registered r))
        as [[acc'| |] s']; simpl in *.
      * destruct IH as (added & -> & -> & Hw).
        destruct r as [it|]; simpl.
        -- exists (it :: added). simpl. rewrite Hb, Hw, <- !app_assoc.
           repeat split.
        -- exists added. now rewrite app_nil_r.
      * destruct IH as (added & ->). eexists. now rewrite <- app_assoc.
      * destruct IH as (added & ->). eexists. now rewrite <- app_assoc.
    + exact Hc.
    + exact Hc.
Qed.

Lemma create_outcome n :
  contains_opaque n = false -> forall s, outcome_ok s (create n s).
Proof.
  induction n as [w term_ column_|k w p|k w cs IH] using QueryNode_ind;
    intros Ho s; try discriminate.
  - simpl. unfold TermCreateSearch, outcome_ok.
    destruct (GetColumnIndexReader _) as [reader|];
      [destruct (Lookup reader term_) as [posting|]|];
      simpl; rewrite ?app_nil_r; now split.
  - simpl in Ho.
    assert (Hcs : Forall (fun c => forall s, outcome_ok s (create c s)) cs).
    { clear - IH Ho. induction IH as [|c cs IHc _ IHcs]; [constructor|].
      simpl in Ho. apply orb_false_iff in Ho as [Hc Ho].
      constructor; [now apply IHc | now apply IHcs]. }
    destruct k.
    + (* AND *)
      rewrite create_and. unfold and_then.
      pose proof (collect_outcome Hcs [] s) as Hc. unfold collected_ok in Hc.
      destruct (collect_all cs [] s) as [[acc'| |] s']; simpl in Hc;
        try exact Hc.
      destruct Hc as (added & -> & -> & Hw). simpl app. unfold outcome_ok.
      destruct added as [|i [|i' added]]; simpl in *.
      * now split.
      * rewrite app_nil_r. split; [reflexivity|].
        now apply andb_true_iff in Hw as [Hw _].
      * split; [reflexivity | exact Hw].
    + (* AND_NOT *)
      destruct cs as [|first others]; [now exists []; rewrite app_nil_r|].
      inversion Hcs as [|? ? Hf Hothers]; subst.
      rewrite create_and_not. unfold and_then at 1.
      specialize (Hf s). unfold outcome_ok in Hf.
      destruct (create first s) as [[[it|]| |] s1]; simpl in Hf;
        try exact Hf.
      destruct Hf as [-> Hb]. unfold and_then.
        pose proof (collect_outcome Hothers [it] (s ++ term_iterators it))
          as Hc.
        unfold collected_ok in Hc.
        destruct (collect_all others [it] (s ++ term_iterators it))
          as [[acc'| |] s']; simpl in Hc.
      * destruct Hc as (added & -> & -> & Hw). unfold outcome_ok.
        destruct added as [|i added]; simpl in *.
        -- rewrite app_nil_r. now split.
        -- rewrite Hb, <- app_assoc. now split.
      * destruct Hc as (added & ->). eexists. simpl.
        now rewrite <- app_assoc.
      * destruct Hc as (added & ->). eexists. simpl.
        now rewrite <- app_assoc.
    + (* OR *)
      rewrite create_or. unfold and_then.
      pose proof (collect_outcome Hcs [] s) as Hc. unfold collected_ok in Hc.
      destruct (collect_all cs [] s) as [[acc'| |] s']; simpl in Hc;
        try exact Hc.
      destruct Hc as (added & -> & -> & Hw). simpl app. unfold outcome_ok.
      destruct added as [|i [|i' added]]; simpl in *.
      * now split.
      * rewrite app_nil_r. split; [reflexivity|].
        now apply andb_true_iff in Hw as [Hw _].
      * split; [reflexivity | exact Hw].
    + (* NOT *)
      exists []. simpl. now rewrite app_nil_r.
Qed.

(** X8.  The scorer and the iterator tree agree.  When the factory returns
    on a tree without opaque leaves, what it has added to the scorer is
    exactly the list of the term iterators of the returned iterator tree,
    left to right, each with its column id; when it returns absent, it has
    added nothing. *)
Theorem scorer_matches_iterators n s r :
  contains_opaque n = false ->
  fst (CreateSearch GetColumnIdByName GetColumnIndexReader Lookup
         OpaqueCreateSearch n s) = Ok r ->
  snd (CreateSearch GetColumnIdByName GetColumnIndexReader Lookup
         OpaqueCreateSearch n s) = s ++ registered r.
Proof.
  intros Ho E. pose proof (create_outcome n Ho s) as H.
  unfold outcome_ok in H. rewrite E in H. apply H.
Qed.

(** X9.  Every composite iterator that the factory builds on a tree without
    opaque leaves combines at least 2 iterators: a node with one surviving
    child is replaced by the iterator of that child. *)
Theorem iterators_well_built n s it :
  contains_opaque n = false ->
  fst (CreateSearch GetColumnIdByName GetColumnIndexReader Lookup
         OpaqueCreateSearch n s) = Ok (Some it) ->
  well_built it = true.
Proof.
  intros Ho E. pose proof (create_outcome n Ho s) as H.
  unfold outcome_ok in H. rewrite E in H. apply H.
Qed.

(** X10.  The factory never removes or reorders a registration: on a tree
    without opaque leaves the scorer it leaves starts with the scorer it
    was given, also when it throws. *)
Theorem scorer_only_grows n s :
  contains_opaque n = false ->
  exists added,
    snd (CreateSearch GetColumnIdByName GetColumnIndexReader Lookup
           OpaqueCreateSearch n s) = s ++ added.
Proof.
  intros Ho. pose proof (create_outcome n Ho s) as H.
  unfold outcome_ok in H.
  destruct (fst (create n s)); try exact H.
  destruct H as [-> _]. eexists. reflexivity.
Qed.

Lemma inner_composite k cs t' :
  OptimizeInPlaceInner k cs = Ok t' -> is_opaque (GetType t') = false.
Proof.
  destruct k; simpl.
  - unfold AndOptimizeInPlaceInner.
    destruct (List.length cs <? 2)%nat; [discriminate|].
    intros H. bind_inv H. injection H as <-. unfold and_build.
    destruct (is_empty (fst a)); [reflexivity|].
    now destruct (is_empty (snd a)).
  - discriminate.
  - unfold OrOptimizeInPlaceInner.
    destruct (List.length cs <? 2)%nat; [discriminate|].
    intros H. bind_inv H. destruct a as [ol nl].
    destruct (is_empty ol); [now injection H as <-|].
    destruct (is_empty nl); [now injection H as <-|discriminate].
  - unfold NotOptimizeInPlaceInner.
    destruct (is_empty cs); [discriminate|].
    intros H. bind_inv H. now injection H as <-.
Qed.

(** X11.  Normalization and the factory together.  On the tree returned
    for an accepted query that is not a single opaque leaf, the factory
    either runs without a throw and without an out-of-range read, when the
    root is not a NOT, or throws its NOT error at once and leaves the
    scorer as it was, when the root is a NOT. *)
Theorem normalize_then_create t t' s :
  normalize t = Ok t' ->
  is_opaque (GetType t) = false ->
  if is_not t'
  then CreateSearch GetColumnIdByName GetColumnIndexReader Lookup
         OpaqueCreateSearch t' s
       = (UnrecoverableError InvalidNormalization, s)
  else is_ok (fst (CreateSearch GetColumnIdByName GetColumnIndexReader Lookup
                     OpaqueCreateSearch t' s)) = true.
Proof.
  intros H Ho.
  assert (Ho' : is_opaque (GetType t') = false).
  { destruct t as [? ? ?|? ? ?|k w cs].
    - simpl in H. now injection H as <-.
    - simpl in H. now injection H as <-.
    - rewrite normalize_multi in H. bind_inv H.
      eapply inner_composite; eassumption. }
  apply normalize_normal in H.
  destruct (is_not t') eqn:En.
  - destruct t' as [? ? ?|[] ? ?|[] ? ?]; try discriminate. reflexivity.
  - assert (He : executable t' = true).
    { eapply normal_form_executable; try eassumption.
      intros Ty. unfold is_not in En. now rewrite Ty in En. }
    destruct (create_executable GetColumnIdByName GetColumnIndexReader Lookup
                OpaqueCreateSearch t' He s) as (r & -> & _).
    reflexivity.
Qed.

End FactoryInvariants.

Lemma scorer_matches_iterators_witness :
  snd (sample_create
         (AndQueryNode 1
            [term "d"; OrQueryNode 1 [term "a"; term "c"]; term "b"])
         [(TermDocIterator 7 2%N, 2%N)])
  = [(TermDocIterator 7 2%N, 2%N);
     (TermDocIterator 40 1%N, 1%N); (TermDocIterator 30 1%N, 1%N)].
Proof.
  exact (@scorer_matches_iterators unit nat sample_column sample_reader
           sample_lookup sample_opaque
           (AndQueryNode 1
              [term "d"; OrQueryNode 1 [term "a"; term "c"]; term "b"])
           [(TermDocIterator 7 2%N, 2%N)]
           (Some (AndIterator [TermDocIterator 40 1%N; TermDocIterator 30 1%N]))
           eq_refl eq_refl).
Defined.

Lemma iterators_well_built_witness :
  well_built
    (AndNotIterator
       [OrIterator [TermDocIterator 40 1%N; TermDocIterator 30 1%N];
        TermDocIterator 30 1%N]) = true.
Proof.
  apply (@iterators_well_built unit nat sample_column sample_reader
           sample_lookup sample_opaque
           (AndNotQueryNode 1
              [AndQueryNode 1
                 [OrQueryNode 1 [term "d"; term "a"; term "c"]; title "c"];
               term "b"; term "c"]) []).
  - reflexivity.
  - reflexivity.
Defined.

Lemma scorer_only_grows_witness :
  exists added,
    snd (sample_create (AndQueryNode 1 [term "c"; NotQueryNode 1 [term "d"]])
           [(TermDocIterator 7 2%N, 2%N)])
    = [(TermDocIterator 7 2%N, 2%N)] ++ added.
Proof.
  apply (@scorer_only_grows unit nat sample_column sample_reader
           sample_lookup sample_opaque
           (AndQueryNode 1 [term "c"; NotQueryNode 1 [term "d"]])).
  reflexivity.
Defined.

Lemma normalize_then_create_witness :
  is_ok (fst (sample_create
                (AndNotQueryNode 1 [term "c"; AndQueryNode 1 [term "a"; term "d"]])
                [])) = true
  /\ sample_create
       (NotQueryNode 1 [AndQueryNode 1 [term "a"; term "d"]])
       [(TermDocIterator 7 2%N, 2%N)]
     = (UnrecoverableError InvalidNormalization, [(TermDocIterator 7 2%N, 2%N)]).
Proof.
  split.
  - apply (@normalize_then_create unit nat sample_column sample_reader
             sample_lookup sample_opaque
             (AndQueryNode 2
                [term "c";
                 OrQueryNode 1 [NotQueryNode 1 [term "a"];
                                NotQueryNode 1 [term "d"]]])
             (AndNotQueryNode 1
                [term "c"; AndQueryNode 1 [term "a"; term "d"]]) []);
      reflexivity.
  - apply (@normalize_then_create unit nat sample_column sample_reader
             sample_lookup sample_opaque
             (OrQueryNode 2 [NotQueryNode 1 [term "a"];
                             NotQueryNode 1 [term "d"]])
             (NotQueryNode 1 [AndQueryNode 1 [term "a"; term "d"]])
             [(TermDocIterator 7 2%N, 2%N)]);
      reflexivity.
Defined.

(* ================================================================== *)
(** * What can be printed, and how many lines *)

Lemma normal_form_nonempty n : forall negated,
  normal_form negated n = true -> all_nonempty n = true.
Proof.
  induction n as [w term_ col|k w p|k w cs IH] using QueryNode_ind;
    intros negated H; try reflexivity.
  rewrite normal_form_multi in H.
  apply andb_true_iff in H as [H Hc]. apply andb_true_iff in H as [_ Hl].
  apply Nat.leb_le in Hl.
  destruct cs as [|c others]; [destruct k; simpl in Hl; lia|].
  apply andb_true_iff in Hc as [Hc Ho].
  inversion IH as [|? ? IHc IHo]; subst.
  unfold item in Hc. apply andb_true_iff in Hc as [_ Hc].
  simpl. rewrite (IHc _ Hc). simpl.
  apply Forall_forallb. apply Forall_forallb in Ho.
  clear - Ho IHo. induction Ho as [|d ds Hd _ IHds]; [constructor|].
  inversion IHo as [|? ? IHd IHo']; subst.
  unfold item in Hd. apply andb_true_iff in Hd as [_ Hd].
  constructor; [eapply IHd; eassumption | now apply IHds].
Qed.

Lemma input_arities_nonempty n :
  input_arities n = true -> all_nonempty n = true.
Proof.
  induction n as [w term_ col|k w p|k w cs IH] using QueryNode_ind;
    intros H; try reflexivity.
  simpl in H. apply andb_true_iff in H as [Hl Hc].
  simpl. apply andb_true_iff. split.
  - destruct cs; [now destruct k | reflexivity].
  - clear Hl. induction IH as [|c cs IHc _ IHcs]; [reflexivity|].
    simpl in Hc. apply andb_true_iff in Hc as [Hc Hcs].
    simpl. now rewrite (IHc Hc), (IHcs Hcs).
Qed.

Section PrinterInvariants.

Variable show_weight : Weight -> string.
Variable OpaquePrintTree :
  OpaqueKind -> Weight -> string -> string -> bool -> string.

(** X12.  The printer is within its bounds on every accepted query and on
    every tree that normalization returns: no composite node of either
    tree is without children, so [children_.back()] is never read on an
    empty vector. *)
Theorem accepted_trees_print t t' prefix is_final :
  normalize t = Ok t' ->
  is_ok (PrintTree show_weight OpaquePrintTree t prefix is_final) = true
  /\ is_ok (PrintTree show_weight OpaquePrintTree t' prefix is_final) = true.
Proof.
  intros H. rewrite !print_tree_ok. split.
  - apply input_arities_nonempty. eapply normalize_arities; eassumption.
  - eapply normal_form_nonempty, normalize_normal; eassumption.
Qed.

End PrinterInvariants.

Lemma accepted_trees_print_witness :
  is_ok (PrintTree sample_weight (fun _ _ payload _ _ => payload)
           (AndQueryNode 2 [term "a"; NotQueryNode 1 [term "b"]]) "" true)
  = true
  /\ is_ok (PrintTree sample_weight (fun _ _ payload _ _ => payload)
              (AndNotQueryNode 1 [term "a"; term "b"]) "" true)
     = true.
Proof.
  apply (@accepted_trees_print sample_weight (fun _ _ payload _ _ => payload)
           (AndQueryNode 2 [term "a"; NotQueryNode 1 [term "b"]])
           (AndNotQueryNode 1 [term "a"; term "b"])).
  reflexivity.
Defined.

(** X13.  The printer names the kinds apart: two kinds have the same token
    exactly when they are the same kind. *)
Theorem type_tokens_distinct a b :
  String.eqb (QueryNodeTypeToString a) (QueryNodeTypeToString b)
  = type_eqb a b.
Proof. destruct a, b; reflexivity. Qed.

(** ** One line for each node *)

Lemma newlines_app (a b : string) :
  newlines (a ++ b)%string = newlines a + newlines b.
Proof.
  induction a as [|c a IH]; simpl; [reflexivity|]. rewrite IH. lia.
Qed.

Lemma newlines_uint (d : Decimal.uint) :
  newlines (NilEmpty.string_of_uint d) = 0.
Proof. induction d; simpl; auto. Qed.

Lemma newlines_size n : newlines (show_size n) = 0.
Proof.
  unfold show_size, NilZero.string_of_uint.
  destruct (Nat.to_uint n); try reflexivity; apply newlines_uint.
Qed.

Section PrinterLines.

Variable show_weight : Weight -> string.
Variable OpaquePrintTree :
  OpaqueKind -> Weight -> string -> string -> bool -> string.
Hypothesis weight_on_one_line : forall w, newlines (show_weight w) = 0.

Lemma newlines_rune f : newlines (rune f) = 0.
Proof. now destruct f. Qed.

Lemma newlines_indent f : newlines (indent f) = 0.
Proof. now destruct f. Qed.

Lemma newlines_type ty : newlines (QueryNodeTypeToString ty) = 0.
Proof. now destruct ty. Qed.

Lemma newlines_header k w cs prefix f :
  newlines prefix = 0 ->
  newlines (MultiHeader show_weight k w cs prefix f) = 1.
Proof.
  intros Hp. unfold MultiHeader.
  rewrite !newlines_app, Hp, newlines_rune, newlines_type,
    weight_on_one_line, newlines_size.
  reflexivity.
Qed.

Lemma newlines_term w term_ column_ prefix f :
  newlines prefix = 0 -> newlines term_ = 0 -> newlines column_ = 0 ->
  newlines (TermPrintTree show_weight w term_ column_ prefix f) = 1.
Proof.
  intros Hp Ht Hc. unfold TermPrintTree.
  rewrite !newlines_app, Hp, newlines_rune, weight_on_one_line, Ht, Hc.
  reflexivity.
Qed.

Lemma print_tree_lines n : forall prefix f out,
  contains_opaque n = false -> one_line_leaves n = true ->
  newlines prefix = 0 ->
  PrintTree show_weight OpaquePrintTree n prefix f = Ok out ->
  newlines out = node_count n.
Proof.
  induction n as [w term_ column_|k w p|k w cs IH] using QueryNode_ind;
    intros prefix f out Ho Hl Hp H; try discriminate.
  - simpl in H. injection H as <-. simpl in Hl.
    apply andb_true_iff in Hl as [Ht Hc].
    apply Nat.eqb_eq in Ht, Hc. now apply newlines_term.
  - rewrite print_tree_multi, <- print_children_body in H.
    bind_inv H. injection H as <-.
    rewrite newlines_app, newlines_header by assumption.
    cbn [node_count Nat.add]. f_equal. simpl in Ho, Hl.
    assert (Hnext : newlines (prefix ++ indent f)%string = 0)
      by (now rewrite newlines_app, Hp, newlines_indent).
    revert a Ha. clear Hp.
    set (next := (prefix ++ indent f)%string) in *.
    induction IH as [|c cs IHc _ IHcs]; intros body Hb; [discriminate|].
    simpl in Ho, Hl. apply orb_false_iff in Ho as [Hoc Ho].
    apply andb_true_iff in Hl as [Hlc Hl].
    destruct cs as [|c' cs].
    + simpl in Hb. simpl. rewrite Nat.add_0_r.
      eapply IHc; eassumption.
    + rewrite print_children_cons in Hb. bind_inv Hb. bind_inv Hb.
      injection Hb as <-. rewrite newlines_app.
      change (fold_right (fun c0 total => node_count c0 + total) 0
                (c :: c' :: cs))
        with (node_count c
              + fold_right (fun c0 total => node_count c0 + total) 0
                  (c' :: cs)).
      f_equal; [eapply IHc; eassumption | now apply IHcs].
Qed.

(** X14.  The printer writes one line for each node: on a tree without
    opaque leaves whose terms and column names hold no line end, printed
    with a prefix and weights that hold none, the number of line ends of
    the output is the number of nodes of the tree. *)
Theorem one_line_per_node n prefix is_final out :
  contains_opaque n = false -> one_line_leaves n = true ->
  newlines prefix = 0 ->
  PrintTree show_weight OpaquePrintTree n prefix is_final = Ok out ->
  newlines out = node_count n.
Proof. apply print_tree_lines. Qed.

End PrinterLines.

Lemma sample_weight_one_line w : newlines (sample_weight w) = 0.
Proof.
  unfold sample_weight. rewrite !newlines_app.
  assert (Hn : newlines (NilZero.string_of_uint (Pos.to_uint (Qden w))) = 0).
  { unfold NilZero.string_of_uint.
    destruct (Pos.to_uint (Qden w)); try reflexivity; apply newlines_uint. }
  rewrite Hn. unfold NilZero.string_of_int.
  destruct (Z.to_int (Qnum w)) as [d|d]; simpl;
    unfold NilZero.string_of_uint;
    destruct d; try reflexivity; simpl; rewrite ?newlines_uint; reflexivity.
Qed.

Lemma one_line_per_node_witness :
  exists out,
    PrintTree sample_weight (fun _ _ payload _ _ => payload)
      (AndNotQueryNode 1
         [AndQueryNode 1 [TermQueryNode (1 # 2) "a" "body"; term "b"];
          title "c"]) "" true = Ok out
    /\ newlines out = 5.
Proof.
  eexists. split; [reflexivity|].
  apply (@one_line_per_node sample_weight (fun _ _ payload _ _ => payload)
           sample_weight_one_line
           (AndNotQueryNode 1
              [AndQueryNode 1 [TermQueryNode (1 # 2) "a" "body"; term "b"];
               title "c"]) "" true);
    reflexivity.
Defined.

(* ================================================================== *)
(** * Identifiers of logical operators *)

Lemma uint64_modulus_pos : (0 < uint64_modulus)%Z.
Proof. reflexivity. Qed.

Lemma new_ids_In calls : forall count x,
  In x (new_ids calls count) ->
  exists i, (1 <= i <= Z.of_nat calls)%Z
            /\ x = ((count + i) mod uint64_modulus)%Z.
Proof.
  induction calls as [|calls IH]; intros count x H; [contradiction|].
  cbn [new_ids] in H. destruct H as [<-|H].
  - exists 1%Z. split; [lia | reflexivity].
  - apply IH in H as (i & Hi & ->). exists (i + 1)%Z. split; [lia|].
    unfold get_new_id.
    rewrite Z.add_mod_idemp_l by (pose proof uint64_modulus_pos; lia).
    f_equal. lia.
Qed.

Lemma new_ids_NoDup calls : forall count,
  (Z.of_nat calls <= uint64_modulus)%Z -> NoDup (new_ids calls count).
Proof.
  pose proof uint64_modulus_pos as Hm.
  induction calls as [|calls IH]; intros count Hc; [constructor|].
  cbn [new_ids]. constructor; [|apply IH; lia].
  intros H. apply new_ids_In in H as (i & Hi & E).
  set (a := get_new_id count) in *.
  assert (Ha : (0 <= a < uint64_modulus)%Z)
    by (apply Z.mod_pos_bound; exact Hm).
  pose proof (Z.div_mod (a + i) uint64_modulus ltac:(lia)) as Hd.
  rewrite <- E in Hd.
  assert (Hq : (i = uint64_modulus * ((a + i) / uint64_modulus))%Z) by lia.
  assert (Hq0 : (0 < (a + i) / uint64_modulus)%Z) by nia.
  nia.
Qed.

(** X15.  [LogicalOperator::get_new_id] does not hand out the same id
    twice: the ids returned by up to 2^64 calls in a row are pairwise
    different, from whatever value the counter starts and across its
    wrap-around. *)
Theorem get_new_id_unique calls count :
  (Z.of_nat calls <= uint64_modulus)%Z -> NoDup (new_ids calls count).
Proof. apply new_ids_NoDup. Qed.

Lemma get_new_id_unique_witness :
  NoDup [18446744073709551615; 0; 1]%Z.
Proof.
  apply (@get_new_id_unique 3 18446744073709551614%Z).
  discriminate.
Defined.

(* ================================================================== *)
(** * The rules, one call at a time *)

(** X16.  Whatever the children are, a rule that returns has moved their
    leaves and done nothing else to them: the leaves of the returned tree
    are the leaves of the children, up to their order. *)
Theorem rule_keeps_leaves k children_ t' :
  OptimizeInPlaceInner k children_ = Ok t' ->
  Permutation (leaf_nodes t') (flat_map leaf_nodes children_).
Proof. apply inner_leaves. Qed.

Lemma rule_keeps_leaves_witness :
  Permutation
    [term "c"; term "d"; term "a"; term "b"]
    [term "a"; term "b"; term "c"; term "d"].
Proof.
  apply (@rule_keeps_leaves AndKind
           [NotQueryNode 1 [term "a"; term "b"];
            OrQueryNode 1 [term "c"; term "d"]]
           (AndNotQueryNode 1
              [OrQueryNode 1 [term "c"; term "d"]; term "a"; term "b"])).
  reflexivity.
Defined.

(** X17.  On children in normal form, whether a rule throws and whether it
    returns a NOT depends on the shapes of the children only.  The NOT rule
    returns (a NOT) when it has a child and no child is a NOT or an opaque
    leaf.  The AND rule returns when it has 2 children and none is an
    opaque leaf, a NOT when all are NOTs.  The OR rule returns when it has
    2 children, none an opaque leaf, that are all NOTs (the result is a
    NOT) or none of which is a NOT.  The AND_NOT rule throws. *)
Theorem rule_outcome k children_ :
  forallb (normal_form false) children_ = true ->
  match combine k (map shape_of children_) with
  | Some p =>
      exists t', OptimizeInPlaceInner k children_ = Ok t' /\ shape_of t' = p
  | None => is_ok (OptimizeInPlaceInner k children_) = false
  end.
Proof. intros H. apply inner_shape. now apply Forall_forallb. Qed.

Lemma rule_outcome_witness :
  is_ok (OptimizeInPlaceInner OrKind
           [NotQueryNode 1 [term "a"]; AndNotQueryNode 1 [term "b"; term "c"]])
  = false.
Proof.
  apply (@rule_outcome OrKind
           [NotQueryNode 1 [term "a"];
            AndNotQueryNode 1 [term "b"; term "c"]]).
  reflexivity.
Defined.
